(** * MockAI: the interview session controller

    A shallow embedding of [InterviewScreen] (components/InterviewScreen.tsx)
    and of the part of [App] (App.tsx) that hosts it, together with the
    properties of the session lifecycle
    "present, capture answer, analyze, show feedback, advance".

    React state is a record; every [setX] call of the source is a setter on
    that record, applied in the order the source issues it.  Calls on the
    browser devices ([recognition], [window.speechSynthesis], [alert],
    [analyzeAnswer]) are collected as a list of [Effect]s.  The [async]
    handler [handleSubmitAnswer] is split at its single [await].

    A handler reads the state of the latest render: React re-renders
    between two events, and the state writes of one synchronous handler run
    are applied together.  [window.speechSynthesis] is assumed to exist;
    [recognition] may be [null]. *)

From Stdlib Require Import List Bool Arith NArith ZArith Lia String Ascii.
Import ListNotations.

Set Implicit Arguments.

(** ** JavaScript strings *)

(** A JavaScript string is a sequence of UTF-16 code units. *)
Definition jsstring := list N.

(** ASCII literals. *)
Definition js (s : string) : jsstring :=
  map N_of_ascii (list_ascii_of_string s).

(** A string is truthy exactly when it is not empty. *)
Definition truthy (s : jsstring) : bool :=
  match s with
  | [] => false
  | _ :: _ => true
  end.

(** [a || b] on strings. *)
Definition or_else (a b : jsstring) : jsstring :=
  if truthy a then a else b.

(** The code units that [String.prototype.trim] strips: ECMAScript
    WhiteSpace and LineTerminator. *)
Definition is_ws (c : N) : bool :=
  ((9 <=? c) && (c <=? 13) ||
   (c =? 32) || (c =? 160) || (c =? 5760) ||
   ((8192 <=? c) && (c <=? 8202)) ||
   (c =? 8232) || (c =? 8233) || (c =? 8239) || (c =? 8287) ||
   (c =? 12288) || (c =? 65279))%N.

Fixpoint trimStart (s : jsstring) : jsstring :=
  match s with
  | [] => []
  | c :: r => if is_ws c then trimStart r else s
  end.

Definition trimEnd (s : jsstring) : jsstring :=
  rev (trimStart (rev s)).

Definition trim (s : jsstring) : jsstring :=
  trimEnd (trimStart s).

(** A string is blank when it consists of whitespace only (the empty string
    included). *)
Definition blank (s : jsstring) : bool := forallb is_ws s.

Fixpoint jsstring_eqb (a b : jsstring) : bool :=
  match a, b with
  | [], [] => true
  | x :: a', y :: b' => (x =? y)%N && jsstring_eqb a' b'
  | _, _ => false
  end.

(** ** Answer resolution (handleSubmitAnswer, the two [const] lines) *)

(** [(answerOverride !== undefined ? answerOverride
      : (finalTranscript || transcript)).trim()] *)
Definition spokenAnswer (answerOverride : option jsstring)
    (finalTranscript transcript : jsstring) : jsstring :=
  trim (match answerOverride with
        | Some o => o
        | None => or_else finalTranscript transcript
        end).

(** [(spokenAnswer || textAnswer).trim()] *)
Definition answerToSubmit (answerOverride : option jsstring)
    (finalTranscript transcript textAnswer : jsstring) : jsstring :=
  trim (or_else (spokenAnswer answerOverride finalTranscript transcript)
                textAnswer).

(** The precedence as the specification words it, read in the two ways the
    word "else" admits.  First reading: an override that is provided is
    taken as it is; the later sources are taken when non-empty. *)
Definition resolve_spec_provided (answerOverride : option jsstring)
    (finalTranscript transcript textAnswer : jsstring) : jsstring :=
  trim (match answerOverride with
        | Some o => o
        | None =>
            if truthy finalTranscript then finalTranscript
            else if truthy transcript then transcript
            else textAnswer
        end).

(** Second reading: the first source, in the order (a) to (d), that holds
    text other than whitespace. *)
Definition resolve_spec_first_text (answerOverride : option jsstring)
    (finalTranscript transcript textAnswer : jsstring) : jsstring :=
  let pick (a b : jsstring) := if blank a then b else a in
  trim (match answerOverride with
        | Some o => pick o (pick finalTranscript (pick transcript textAnswer))
        | None => pick finalTranscript (pick transcript textAnswer)
        end).

(** ** Data model (types.ts) *)

Inductive AppState : Set :=
| SETUP | GENERATING | INTERVIEW | ANALYZING | FEEDBACK | COMPLETE.

Record InterviewQuestion : Set := {
  question : jsstring;
  persona : jsstring;
  keywords : list jsstring
}.

Inductive Rating : Set := Beginner | Intermediate | Advanced.

(** [score] is a JavaScript number; the controller only carries it. *)
Record AnswerFeedback : Set := {
  strengths : list jsstring;
  weaknesses : list jsstring;
  idealAnswer : jsstring;
  spokenFeedback : jsstring;
  score : Z;
  rating : Rating;
  matchedKeywords : list jsstring;
  missedKeywords : list jsstring
}.

(** [InterviewResult]; the fields are [question], [answer] and [feedback] in
    the source. *)
Record InterviewResult : Set := {
  res_question : InterviewQuestion;
  res_answer : jsstring;
  res_feedback : AnswerFeedback
}.

Inductive SpeechState : Set := idle | playing | paused | ended.

(** ** Component state

    [appState] and [appResults] are the [useState] cells of [App] that
    [InterviewScreen] writes through its props [setAppState] and
    [setResults]; [questions] is the prop of the same name; the other fields
    are the [useState] cells of [InterviewScreen]. *)
Record State : Set := {
  appState : AppState;
  appResults : list InterviewResult;
  questions : list InterviewQuestion;
  currentQuestionIndex : nat;
  isListening : bool;
  transcript : jsstring;
  finalTranscript : jsstring;
  textAnswer : jsstring;
  feedback : option AnswerFeedback;
  isAnalyzing : bool;
  results : list InterviewResult;
  speechState : SpeechState
}.

Definition setAppState (v : AppState) (s : State) : State :=
  {| appState := v; appResults := appResults s; questions := questions s;
     currentQuestionIndex := currentQuestionIndex s;
     isListening := isListening s; transcript := transcript s;
     finalTranscript := finalTranscript s; textAnswer := textAnswer s;
     feedback := feedback s; isAnalyzing := isAnalyzing s;
     results := results s; speechState := speechState s |}.

(** [setResults(prev => f prev)] *)
Definition setResults (f : list InterviewResult -> list InterviewResult)
    (s : State) : State :=
  {| appState := appState s; appResults := f (appResults s);
     questions := questions s;
     currentQuestionIndex := currentQuestionIndex s;
     isListening := isListening s; transcript := transcript s;
     finalTranscript := finalTranscript s; textAnswer := textAnswer s;
     feedback := feedback s; isAnalyzing := isAnalyzing s;
     results := results s; speechState := speechState s |}.

(** [setCurrentQuestionIndex(prev => f prev)] *)
Definition setCurrentQuestionIndex (f : nat -> nat) (s : State) : State :=
  {| appState := appState s; appResults := appResults s;
     questions := questions s;
     currentQuestionIndex := f (currentQuestionIndex s);
     isListening := isListening s; transcript := transcript s;
     finalTranscript := finalTranscript s; textAnswer := textAnswer s;
     feedback := feedback s; isAnalyzing := isAnalyzing s;
     results := results s; speechState := speechState s |}.

Definition setIsListening (v : bool) (s : State) : State :=
  {| appState := appState s; appResults := appResults s;
     questions := questions s;
     currentQuestionIndex := currentQuestionIndex s;
     isListening := v; transcript := transcript s;
     finalTranscript := finalTranscript s; textAnswer := textAnswer s;
     feedback := feedback s; isAnalyzing := isAnalyzing s;
     results := results s; speechState := speechState s |}.

Definition setTranscript (v : jsstring) (s : State) : State :=
  {| appState := appState s; appResults := appResults s;
     questions := questions s;
     currentQuestionIndex := currentQuestionIndex s;
     isListening := isListening s; transcript := v;
     finalTranscript := finalTranscript s; textAnswer := textAnswer s;
     feedback := feedback s; isAnalyzing := isAnalyzing s;
     results := results s; speechState := speechState s |}.

(** [setFinalTranscript(prev => f prev)]; a plain value is [fun _ => v]. *)
Definition setFinalTranscript (f : jsstring -> jsstring) (s : State) : State :=
  {| appState := appState s; appResults := appResults s;
     questions := questions s;
     currentQuestionIndex := currentQuestionIndex s;
     isListening := isListening s; transcript := transcript s;
     finalTranscript := f (finalTranscript s); textAnswer := textAnswer s;
     feedback := feedback s; isAnalyzing := isAnalyzing s;
     results := results s; speechState := speechState s |}.

Definition setTextAnswer (v : jsstring) (s : State) : State :=
  {| appState := appState s; appResults := appResults s;
     questions := questions s;
     currentQuestionIndex := currentQuestionIndex s;
     isListening := isListening s; transcript := transcript s;
     finalTranscript := finalTranscript s; textAnswer := v;
     feedback := feedback s; isAnalyzing := isAnalyzing s;
     results := results s; speechState := speechState s |}.

Definition setFeedback (v : option AnswerFeedback) (s : State) : State :=
  {| appState := appState s; appResults := appResults s;
     questions := questions s;
     currentQuestionIndex := currentQuestionIndex s;
     isListening := isListening s; transcript := transcript s;
     finalTranscript := finalTranscript s; textAnswer := textAnswer s;
     feedback := v; isAnalyzing := isAnalyzing s;
     results := results s; speechState := speechState s |}.

Definition setIsAnalyzing (v : bool) (s : State) : State :=
  {| appState := appState s; appResults := appResults s;
     questions := questions s;
     currentQuestionIndex := currentQuestionIndex s;
     isListening := isListening s; transcript := transcript s;
     finalTranscript := finalTranscript s; textAnswer := textAnswer s;
     feedback := feedback s; isAnalyzing := v;
     results := results s; speechState := speechState s |}.

(** [setLocalResults(prev => f prev)] *)
Definition setLocalResults (f : list InterviewResult -> list InterviewResult)
    (s : State) : State :=
  {| appState := appState s; appResults := appResults s;
     questions := questions s;
     currentQuestionIndex := currentQuestionIndex s;
     isListening := isListening s; transcript := transcript s;
     finalTranscript := finalTranscript s; textAnswer := textAnswer s;
     feedback := feedback s; isAnalyzing := isAnalyzing s;
     results := f (results s); speechState := speechState s |}.

Definition setSpeechState (v : SpeechState) (s : State) : State :=
  {| appState := appState s; appResults := appResults s;
     questions := questions s;
     currentQuestionIndex := currentQuestionIndex s;
     isListening := isListening s; transcript := transcript s;
     finalTranscript := finalTranscript s; textAnswer := textAnswer s;
     feedback := feedback s; isAnalyzing := isAnalyzing s;
     results := results s; speechState := v |}.

(** [const currentQuestion = questions[currentQuestionIndex]]; [None] is
    [undefined]. *)
Definition currentQuestion (s : State) : option InterviewQuestion :=
  nth_error (questions s) (currentQuestionIndex s).

(** ** Effects on the outside world *)

Inductive Effect : Set :=
| RecognitionStart                 (* recognition.start() *)
| RecognitionStop                  (* recognition.stop() *)
| SynthCancel                      (* window.speechSynthesis.cancel() *)
| SynthSpeak (text : jsstring)     (* window.speechSynthesis.speak(u) *)
| SynthPause                       (* window.speechSynthesis.pause() *)
| SynthResume                      (* window.speechSynthesis.resume() *)
| AnalyzeAnswer (q a : jsstring) (kw : list jsstring)
                                   (* analyzeAnswer(q, a, kw) is issued *)
| Alert (msg : jsstring)           (* alert(msg) *)
| ConsoleError                     (* console.error(...) *)
| UncaughtTypeError.               (* a member access on null escapes *)

Definition is_AnalyzeAnswer (e : Effect) : bool :=
  match e with
  | AnalyzeAnswer _ _ _ => true
  | _ => false
  end.

Definition msgAnalysisError : jsstring :=
  js "There was an error analyzing your answer. Please try again.".

Definition msgUnsupported : jsstring :=
  js "Speech recognition is not supported in this browser. Please use Chrome or Edge.".

(** [speak(text)]: cancels the utterance in progress, then speaks.  The
    status callbacks of the new utterance arrive later, as events. *)
Definition speak (text : jsstring) : list Effect :=
  [SynthCancel; SynthSpeak text].

(** ** handleSubmitAnswer *)

(** What the continuation after [await analyzeAnswer(...)] has captured. *)
Record Pending : Set := {
  p_question : InterviewQuestion;
  p_answer : jsstring
}.

(** The two [const]s of the handler, read from the rendered state. *)
Definition resolvedAnswer (answerOverride : option jsstring) (s : State)
    : jsstring :=
  answerToSubmit answerOverride (finalTranscript s) (transcript s)
                 (textAnswer s).

(** The handler up to its [await].  [rec] tells whether the module-level
    [recognition] object exists.  With an answer to submit and
    [currentQuestion] undefined, [currentQuestion.question] throws inside
    the [try], so the [catch] and [finally] blocks run at once. *)
Definition handleSubmitAnswer (rec : bool) (answerOverride : option jsstring)
    (s : State) : State * list Effect * option Pending :=
  let e0 := if isListening s && rec then [RecognitionStop] else [] in
  let s1 := setAppState ANALYZING (setIsAnalyzing true s) in
  let answer := resolvedAnswer answerOverride s in
  if negb (truthy answer) then
    (setAppState INTERVIEW (setIsAnalyzing false s1), e0, None)
  else
    match currentQuestion s with
    | Some q =>
        (s1, e0 ++ [AnalyzeAnswer (question q) answer (keywords q)],
         Some {| p_question := q; p_answer := answer |})
    | None =>
        (setIsAnalyzing false (setAppState INTERVIEW s1),
         e0 ++ [ConsoleError; Alert msgAnalysisError], None)
    end.

(** The continuation when the evaluator call is fulfilled with
    [generatedFeedback], run on the state of that moment. *)
Definition handleSubmitAnswer_fulfilled (p : Pending)
    (generatedFeedback : AnswerFeedback) (s : State) : State * list Effect :=
  let e := if truthy (spokenFeedback generatedFeedback)
           then speak (spokenFeedback generatedFeedback) else [] in
  let newResult := {| res_question := p_question p;
                      res_answer := p_answer p;
                      res_feedback := generatedFeedback |} in
  let s1 := setFeedback (Some generatedFeedback) s in
  let s2 := setResults (fun prev => prev ++ [newResult]) s1 in
  let s3 := setLocalResults (fun prev => prev ++ [newResult]) s2 in
  let s4 := setAppState FEEDBACK s3 in
  (setIsAnalyzing false s4, e).

(** The continuation when the evaluator call is rejected. *)
Definition handleSubmitAnswer_rejected (s : State) : State * list Effect :=
  (setIsAnalyzing false (setAppState INTERVIEW s),
   [ConsoleError; Alert msgAnalysisError]).

(** ** The other handlers *)

Definition handleToggleListening (rec : bool) (s : State)
    : State * list Effect :=
  if isListening s then
    (s, [if rec then RecognitionStop else UncaughtTypeError])
  else
    let s1 := setTextAnswer [] (setFinalTranscript (fun _ => [])
                                  (setTranscript [] s)) in
    if rec then (setIsListening true s1, [RecognitionStart])
    else (s1, [UncaughtTypeError]).

Definition handleToggleSpokenFeedback (s : State) : State * list Effect :=
  match speechState s with
  | playing => (s, [SynthPause])
  | paused => (s, [SynthResume])
  | ended | idle =>
      match feedback s with
      | Some f =>
          if truthy (spokenFeedback f) then (s, speak (spokenFeedback f))
          else (s, [])
      | None => (s, [])
      end
  end.

(** [currentQuestionIndex < questions.length - 1], on integers. *)
Definition hasNextQuestion (s : State) : bool :=
  (Z.of_nat (currentQuestionIndex s)
     <? Z.of_nat (List.length (questions s)) - 1)%Z.

Definition handleNextQuestion (s : State) : State * list Effect :=
  let s1 := setTextAnswer []
              (setFinalTranscript (fun _ => [])
                 (setTranscript []
                    (setFeedback None (setSpeechState idle s)))) in
  if hasNextQuestion s then
    (setAppState INTERVIEW (setCurrentQuestionIndex (fun prev => prev + 1) s1),
     [SynthCancel])
  else
    (setAppState COMPLETE s1, [SynthCancel]).

(** [const isInterviewOver = currentQuestionIndex >= questions.length] *)
Definition isInterviewOver (s : State) : bool :=
  List.length (questions s) <=? currentQuestionIndex s.

(** [const displayedAnswer = isListening || transcript ? transcript
                                                       : textAnswer] *)
Definition displayedAnswer (s : State) : jsstring :=
  if isListening s || truthy (transcript s) then transcript s
  else textAnswer s.

(** The textarea's [onChange] with [e.target.value = v]. *)
Definition onChange (rec : bool) (v : jsstring) (s : State)
    : State * list Effect :=
  let s1 := setTextAnswer v s in
  let clear (x : State) :=
    setFinalTranscript (fun _ => []) (setTranscript [] x) in
  if isListening s then
    if rec then (clear (setIsListening false s1), [RecognitionStop])
    else (s1, [UncaughtTypeError])
  else (clear s1, []).

(** One entry of [event.results] from [event.resultIndex] on:
    [results[i][0].transcript] and [results[i].isFinal]. *)
Definition SpeechResult : Set := (jsstring * bool)%type.

(** The loop of [recognition.onresult]: the pair [(final,
    interimTranscript)]. *)
Fixpoint collectChunks (rs : list SpeechResult) (final interim : jsstring)
    : jsstring * jsstring :=
  match rs with
  | [] => (final, interim)
  | (chunk, true) :: rest => collectChunks rest (final ++ chunk) interim
  | (chunk, false) :: rest => collectChunks rest final (interim ++ chunk)
  end.

(** [recognition.onresult].  The closure reads the [finalTranscript] of the
    latest render: the effect that installs it depends on
    [finalTranscript]. *)
Definition onresult (rs : list SpeechResult) (s : State) : State :=
  let '(final, interimTranscript) := collectChunks rs [] [] in
  let s1 := setTranscript (finalTranscript s ++ final ++ interimTranscript)
                          s in
  if truthy final
  then setFinalTranscript (fun prev => trim (prev ++ js " " ++ final)) s1
  else s1.

(** [recognition.onend] *)
Definition onend (s : State) : State := setIsListening false s.

(** The status callbacks that [speak] installs on an utterance. *)
Inductive UtteranceEvent : Set :=
| onstart | onpause | onresume | onend_utterance | onerror.

Definition utteranceCallback (u : UtteranceEvent) (s : State)
    : State * list Effect :=
  match u with
  | onstart => (setSpeechState playing s, [])
  | onpause => (setSpeechState paused s, [])
  | onresume => (setSpeechState playing s, [])
  | onend_utterance => (setSpeechState ended s, [])
  | onerror => (setSpeechState ended s, [ConsoleError])
  end.

(** ** What a render offers, and what runs after it *)

(** [App.renderContent] mounts [InterviewScreen] in these three states. *)
Definition mounted (s : State) : bool :=
  match appState s with
  | INTERVIEW | ANALYZING | FEEDBACK => true
  | SETUP | GENERATING | COMPLETE => false
  end.

(** [InterviewScreen] returns [null] when [isInterviewOver]. *)
Definition rendered (s : State) : bool :=
  mounted s && negb (isInterviewOver s).

Definition hasFeedback (s : State) : bool :=
  match feedback s with
  | Some _ => true
  | None => false
  end.

(** The footer shows the spinner while [isAnalyzing], else the "next"
    button when there is feedback, else the microphone and submit
    buttons. *)
Definition footerHasSubmit (s : State) : bool :=
  rendered s && negb (isAnalyzing s) && negb (hasFeedback s).

Definition footerHasNext (s : State) : bool :=
  rendered s && negb (isAnalyzing s) && hasFeedback s.

(** [disabled={!displayedAnswer.trim()}] on the submit button. *)
Definition submitEnabled (s : State) : bool :=
  footerHasSubmit s && truthy (trim (displayedAnswer s)).

(** The textarea is shown when there is no feedback, with
    [disabled={isAnalyzing || isListening}]. *)
Definition textareaEnabled (s : State) : bool :=
  rendered s && negb (hasFeedback s)
  && negb (isAnalyzing s || isListening s).

(** The first [useEffect]: speak the question.  Dependencies
    [currentQuestion, feedback, speak]. *)
Definition questionSpeech (s : State) : list Effect :=
  match currentQuestion s with
  | Some q =>
      if hasFeedback s then []
      else speak (js "Next question, from " ++ persona q ++ js ". "
                    ++ question q)
  | None => []
  end.

(** Between two renders of one session [questions] is the same array, so
    [currentQuestion] is the same object exactly when the index is the
    same; [feedback] goes from [null] to a response object or back. *)
Definition speechDepsChanged (prev next : State) : bool :=
  negb (currentQuestionIndex prev =? currentQuestionIndex next)
  || negb (Bool.eqb (hasFeedback prev) (hasFeedback next)).

(** [handleSubmitAnswer] is a [useCallback] over [isListening,
    finalTranscript, transcript, textAnswer, currentQuestion, setAppState,
    setResults, speak]: it is a new function exactly when one of the first
    five changed. *)
Definition submitCallbackChanged (prev next : State) : bool :=
  negb (Bool.eqb (isListening prev) (isListening next))
  || negb (jsstring_eqb (finalTranscript prev) (finalTranscript next))
  || negb (jsstring_eqb (transcript prev) (transcript next))
  || negb (jsstring_eqb (textAnswer prev) (textAnswer next))
  || negb (currentQuestionIndex prev =? currentQuestionIndex next).

(** The second [useEffect] has dependencies [finalTranscript,
    handleSubmitAnswer]. *)
Definition recognitionDepsChanged (prev next : State) : bool :=
  negb (jsstring_eqb (finalTranscript prev) (finalTranscript next))
  || submitCallbackChanged prev next.

(** Body of the second [useEffect]: without [recognition] it alerts and
    returns no cleanup; with it, it installs [onresult] and [onend]. *)
Definition recognitionEffect (rec : bool) : list Effect :=
  if rec then [] else [Alert msgUnsupported].

(** Its cleanup, which exists only when [recognition] does. *)
Definition recognitionCleanup (rec : bool) : list Effect :=
  if rec then [SynthCancel; RecognitionStop] else [].

(** Effects after the first render. *)
Definition onMount (rec : bool) (s : State) : list Effect :=
  questionSpeech s ++ recognitionEffect rec.

(** Effects after a re-render: the cleanups of the effects whose
    dependencies changed, then those effects in declaration order. *)
Definition afterRender (rec : bool) (prev next : State) : list Effect :=
  (if recognitionDepsChanged prev next then recognitionCleanup rec else [])
  ++ (if speechDepsChanged prev next then questionSpeech next else [])
  ++ (if recognitionDepsChanged prev next then recognitionEffect rec
      else []).

(** ** The session as a transition system *)

Inductive Event : Set :=
| ClickSubmit                                 (* onClick={() => handleSubmitAnswer()} *)
| ClickMicrophone                             (* onClick={handleToggleListening} *)
| ClickNext                                   (* onClick={handleNextQuestion} *)
| ClickToggleSpokenFeedback                   (* FeedbackCard's onToggleSpokenFeedback *)
| TypeText (v : jsstring)                     (* the textarea's onChange *)
| RecognitionResult (rs : list SpeechResult)  (* recognition.onresult *)
| RecognitionEnd                              (* recognition.onend *)
| Utterance (u : UtteranceEvent)              (* a callback of the utterance *)
| Fulfilled (generatedFeedback : AnswerFeedback)
                                              (* the oldest evaluator call is fulfilled *)
| Rejected.                                   (* the oldest evaluator call is rejected *)

(** [recognition] is the module-level constant; [inflight] holds the
    evaluator calls issued and not yet settled; [trace] is every effect so
    far, oldest first. *)
Record Sys : Set := {
  recognition : bool;
  st : State;
  inflight : list Pending;
  trace : list Effect
}.

(** Whether the render of [w] lets the event happen.  Clicks and edits
    need their control on screen and enabled; device callbacks need the
    screen mounted, which is when they are installed; a settlement needs a
    call in flight.  [FeedbackCard] is given [handleToggleSpokenFeedback]
    and is taken to offer it whenever it is shown. *)
Definition enabled (ev : Event) (w : Sys) : bool :=
  let s := st w in
  match ev with
  | ClickSubmit => submitEnabled s
  | ClickMicrophone => footerHasSubmit s
  | ClickNext => footerHasNext s
  | ClickToggleSpokenFeedback => rendered s && hasFeedback s
  | TypeText _ => textareaEnabled s
  | RecognitionResult _ | RecognitionEnd => mounted s && recognition w
  | Utterance _ => mounted s
  | Fulfilled _ | Rejected => mounted s && negb (Nat.eqb (List.length (inflight w)) 0)
  end.

(** The handler of an event: new state, effects, calls still in flight. *)
Definition dispatch (ev : Event) (w : Sys)
    : State * list Effect * list Pending :=
  let s := st w in
  let rec := recognition w in
  let keep (r : State * list Effect) := (fst r, snd r, inflight w) in
  match ev with
  | ClickSubmit =>
      let '(s', e, p) := handleSubmitAnswer rec None s in
      (s', e, inflight w ++ match p with Some x => [x] | None => [] end)
  | ClickMicrophone => keep (handleToggleListening rec s)
  | ClickNext => keep (handleNextQuestion s)
  | ClickToggleSpokenFeedback => keep (handleToggleSpokenFeedback s)
  | TypeText v => keep (onChange rec v s)
  | RecognitionResult rs => (onresult rs s, [], inflight w)
  | RecognitionEnd => (onend s, [], inflight w)
  | Utterance u => keep (utteranceCallback u s)
  | Fulfilled f =>
      match inflight w with
      | p :: rest =>
          let '(s', e) := handleSubmitAnswer_fulfilled p f s in (s', e, rest)
      | [] => (s, [], [])
      end
  | Rejected =>
      let '(s', e) := handleSubmitAnswer_rejected s in
      (s', e, tl (inflight w))
  end.

(** One event: the handler runs, React renders, the effects run.  When the
    new [appState] unmounts the screen, the cleanup runs instead. *)
Definition step (ev : Event) (w : Sys) : option Sys :=
  if enabled ev w then
    let '(s', e, calls) := dispatch ev w in
    let after := if mounted s' then afterRender (recognition w) (st w) s'
                 else recognitionCleanup (recognition w) in
    Some {| recognition := recognition w; st := s'; inflight := calls;
            trace := trace w ++ e ++ after |}
  else None.

Fixpoint run (evs : list Event) (w : Sys) : option Sys :=
  match evs with
  | [] => Some w
  | ev :: rest =>
      match step ev w with
      | Some w' => run rest w'
      | None => None
      end
  end.

(** The system after a sequence of events, staying where it is when one of
    them is not offered. *)
Definition after (evs : list Event) (w : Sys) : Sys :=
  match run evs w with
  | Some w' => w'
  | None => w
  end.

(** The [useState] initial values of [InterviewScreen], under the [App]
    state that [handleStartInterview] sets on success:
    [setQuestions(generatedQuestions); setResults([]);
     setAppState(AppState.INTERVIEW)]. *)
Definition initialState (qs : list InterviewQuestion) : State :=
  {| appState := INTERVIEW; appResults := []; questions := qs;
     currentQuestionIndex := 0; isListening := false; transcript := [];
     finalTranscript := []; textAnswer := []; feedback := None;
     isAnalyzing := false; results := []; speechState := idle |}.

Definition mount (rec : bool) (qs : list InterviewQuestion) : Sys :=
  {| recognition := rec; st := initialState qs; inflight := [];
     trace := onMount rec (initialState qs) |}.

(** [handleStartInterview] enters the interview only with
    [generatedQuestions.length > 0]. *)
Inductive reachable : Sys -> Prop :=
| reachable_mount (rec : bool) (qs : list InterviewQuestion) :
    qs <> [] -> reachable (mount rec qs)
| reachable_step (ev : Event) (w w' : Sys) :
    reachable w -> step ev w = Some w' -> reachable w'.

Definition countAlerts (msg : jsstring) (t : list Effect) : nat :=
  List.length (filter (fun e => match e with
                                | Alert m => jsstring_eqb m msg
                                | _ => false
                                end) t).

Definition countAnalyzeAnswer (t : list Effect) : nat :=
  List.length (filter is_AnalyzeAnswer t).

(** The session invariant. *)
Definition turnInvariant (w : Sys) : Prop :=
  let s := st w in
  appResults s = results s /\
  currentQuestionIndex s < List.length (questions s) /\
  List.length (inflight w) = (if isAnalyzing s then 1 else 0) /\
  match appState s with
  | INTERVIEW =>
      isAnalyzing s = false /\ feedback s = None /\
      List.length (results s) = currentQuestionIndex s
  | ANALYZING =>
      isAnalyzing s = true /\ feedback s = None /\
      List.length (results s) = currentQuestionIndex s
  | FEEDBACK =>
      isAnalyzing s = false /\ hasFeedback s = true /\
      List.length (results s) = S (currentQuestionIndex s)
  | COMPLETE =>
      isAnalyzing s = false /\ feedback s = None /\
      List.length (results s) = S (currentQuestionIndex s) /\
      S (currentQuestionIndex s) = List.length (questions s)
  | SETUP | GENERATING => False
  end.

(** ** Sample data *)

Definition sampleQuestion : InterviewQuestion :=
  {| question := js "How do you keep a cache fresh?";
     persona := js "Staff Engineer";
     keywords := [js "invalidation"; js "ttl"] |}.

Definition sampleFeedback : AnswerFeedback :=
  {| strengths := [js "clear"]; weaknesses := [js "short"];
     idealAnswer := js "Use a ttl and explicit invalidation.";
     spokenFeedback := js "Good start.";
     score := 72; rating := Intermediate;
     matchedKeywords := [js "ttl"]; missedKeywords := [js "invalidation"] |}.

(** The session state after typing "a" and pressing submit. *)
Definition analyzingState : State :=
  {| appState := ANALYZING; appResults := [];
     questions := [sampleQuestion];
     currentQuestionIndex := 0; isListening := false; transcript := [];
     finalTranscript := []; textAnswer := js "a"; feedback := None;
     isAnalyzing := true; results := []; speechState := idle |}.

(** ** Predicates on states and traces *)

(** The finalized transcript is kept in trimmed form, and is empty whenever
    the displayed transcript is. *)
Definition captureInvariant (s : State) : Prop :=
  trim (finalTranscript s) = finalTranscript s /\
  (transcript s = [] -> finalTranscript s = []).

Definition goodAnswer (a : jsstring) : Prop :=
  a <> [] /\ trim a = a.

(** The recorded results follow the question list, and every answer, sent
    or recorded, is a non-empty trimmed string. *)
Definition answersInvariant (w : Sys) : Prop :=
  map res_question (results (st w))
    = firstn (List.length (results (st w))) (questions (st w)) /\
  Forall (fun r => goodAnswer (res_answer r)) (results (st w)) /\
  Forall (fun p => currentQuestion (st w) = Some (p_question p) /\
                   goodAnswer (p_answer p)) (inflight w).

(** Every evaluator call issued so far has produced a result, or the error
    alert, or is still in flight. *)
Definition accounted (w : Sys) : Prop :=
  countAnalyzeAnswer (trace w)
    = List.length (results (st w))
      + countAlerts msgAnalysisError (trace w)
      + List.length (inflight w).

(** The feedback on screen is the feedback of the latest result. *)
Definition reviewInvariant (s : State) : Prop :=
  forall f, feedback s = Some f ->
    exists earlier r, results s = earlier ++ [r] /\ res_feedback r = f.

(** Effects that neither issue an evaluator call nor show the analysis
    error. *)
Definition quiet (t : list Effect) : bool :=
  forallb (fun e => match e with
                    | AnalyzeAnswer _ _ _ => false
                    | Alert m => negb (jsstring_eqb m msgAnalysisError)
                    | _ => true
                    end) t.

(** No [speak] without a [cancel] right before it.  [cancelled] tells
    whether the effect just before the list was a [cancel]. *)
Fixpoint preempted (cancelled : bool) (t : list Effect) : bool :=
  match t with
  | [] => true
  | SynthSpeak _ :: r => cancelled && preempted false r
  | SynthCancel :: r => preempted true r
  | _ :: r => preempted false r
  end.

Definition speechPreempts (t : list Effect) : bool := preempted false t.

(** Commands that make a sound or open the microphone. *)
Definition startsDevice (e : Effect) : bool :=
  match e with
  | SynthSpeak _ | SynthResume | RecognitionStart => true
  | _ => false
  end.

(** The text of the first [useEffect] for a question. *)
Definition announcement (q : InterviewQuestion) : jsstring :=
  js "Next question, from " ++ persona q ++ js ". " ++ question q.

(** ** App: starting and resetting an interview (App.tsx) *)

Module App.

(** The [useState] cells of [App]. *)
Record t : Set := {
  appState : AppState;
  questions : list InterviewQuestion;
  results : list InterviewResult;
  error : option jsstring;
  isReportModalOpen : bool
}.

(** How the two awaited calls of [handleStartInterview]
    ([parseJobDescription], then [generateQuestions]) turn out.  The
    services are outside this development; only their outcome matters. *)
Inductive Generation : Set :=
| Produced (generatedQuestions : option (list InterviewQuestion))
    (* both fulfilled; [None] is a null or undefined value *)
| ThrewError (message : jsstring)   (* rejected with an [Error] *)
| ThrewOther.                       (* rejected with another value *)

Definition msgNoQuestions : jsstring :=
  js "The AI failed to generate questions. Please try again with a clearer job description.".

Definition msgUnknown : jsstring :=
  js "An unknown error occurred while setting up the interview.".

(** [handleStartInterview] up to its first [await]:
    [setAppState(AppState.GENERATING); setError(null)]. *)
Definition handleStartInterview_begin (a : t) : t :=
  {| appState := GENERATING; questions := questions a;
     results := results a; error := None;
     isReportModalOpen := isReportModalOpen a |}.

(** The [catch] block: [setError(errorMessage); setAppState(SETUP)]. *)
Definition failStart (errorMessage : jsstring) (a : t) : t :=
  {| appState := SETUP; questions := questions a; results := results a;
     error := Some errorMessage;
     isReportModalOpen := isReportModalOpen a |}.

(** The rest of [handleStartInterview], once the calls have settled. *)
Definition handleStartInterview_settled (g : Generation) (a : t) : t :=
  match g with
  | Produced (Some (q :: qs)) =>
      {| appState := INTERVIEW; questions := q :: qs; results := [];
         error := error a; isReportModalOpen := isReportModalOpen a |}
  | Produced (Some []) | Produced None => failStart msgNoQuestions a
  | ThrewError message => failStart message a
  | ThrewOther => failStart msgUnknown a
  end.

Definition resetInterview (a : t) : t :=
  {| appState := SETUP; questions := []; results := []; error := None;
     isReportModalOpen := false |}.

(** [SetupScreen.handleStart] under [App]: the setup screen is rendered in
    [SETUP] and [GENERATING] with [isLoading = (appState === GENERATING)],
    and calls [onStart] when [jd.trim() && !isLoading]. *)
Definition handleStart (jd : jsstring) (a : t) : option t :=
  match appState a with
  | SETUP | GENERATING =>
      let isLoading := match appState a with
                       | GENERATING => true
                       | _ => false
                       end in
      if truthy (trim jd) && negb isLoading
      then Some (handleStartInterview_begin a)
      else None
  | _ => None
  end.

End App.

(** What [App] hands to [InterviewScreen] when it mounts it: the state of
    the screen's first render. *)
Definition screenState (a : App.t) : State :=
  {| appState := App.appState a; appResults := App.results a;
     questions := App.questions a;
     currentQuestionIndex := 0; isListening := false; transcript := [];
     finalTranscript := []; textAnswer := []; feedback := None;
     isAnalyzing := false; results := []; speechState := idle |}.

(** ** Facts about [trim] *)

Lemma trimStart_blank (s : jsstring) :
  trimStart s = [] <-> blank s = true.
Proof.
  induction s as [|c r IH]; simpl.
  - split; reflexivity.
  - destruct (is_ws c); simpl.
    + exact IH.
    + split; discriminate.
Qed.

Lemma blank_rev (s : jsstring) : blank (rev s) = blank s.
Proof.
  unfold blank. induction s as [|c r IH]; simpl.
  - reflexivity.
  - rewrite forallb_app, IH. simpl. rewrite andb_true_r. apply andb_comm.
Qed.

Lemma trimStart_suffix (s : jsstring) :
  exists p, blank p = true /\ s = p ++ trimStart s.
Proof.
  induction s as [|c r [p [Hp Heq]]]; simpl.
  - exists []. split; reflexivity.
  - destruct (is_ws c) eqn:Hc.
    + exists (c :: p). simpl. rewrite Hc, Hp. split; [reflexivity|].
      now rewrite <- Heq.
    + exists []. split; reflexivity.
Qed.

Lemma trimStart_head (s : jsstring) (c : N) (r : jsstring) :
  trimStart s = c :: r -> is_ws c = false.
Proof.
  induction s as [|d t IH]; simpl.
  - discriminate.
  - destruct (is_ws d) eqn:Hd.
    + exact IH.
    + intros H. injection H as -> _. exact Hd.
Qed.

Lemma trimStart_fixed (s : jsstring) :
  trimStart (trimStart s) = trimStart s.
Proof.
  destruct (trimStart s) as [|c r] eqn:E.
  - reflexivity.
  - simpl. now rewrite (trimStart_head _ E).
Qed.

Lemma blank_app (a b : jsstring) : blank (a ++ b) = blank a && blank b.
Proof. apply forallb_app. Qed.

Lemma trim_blank (s : jsstring) : trim s = [] <-> blank s = true.
Proof.
  unfold trim, trimEnd.
  destruct (trimStart_suffix s) as [p [Hp Heq]].
  split.
  - intros H.
    assert (Hr : trimStart (rev (trimStart s)) = []).
    { apply (f_equal (@rev N)) in H. now rewrite rev_involutive in H. }
    apply trimStart_blank in Hr. rewrite blank_rev in Hr.
    rewrite Heq, blank_app, Hp, Hr. reflexivity.
  - intros H. apply trimStart_blank in H. rewrite H. reflexivity.
Qed.

Lemma truthy_trim (s : jsstring) : truthy (trim s) = negb (blank s).
Proof.
  destruct (blank s) eqn:Hb.
  - apply trim_blank in Hb. now rewrite Hb.
  - destruct (trim s) eqn:Ht; [|reflexivity].
    apply trim_blank in Ht. congruence.
Qed.

Lemma trimStart_trimEnd (s : jsstring) :
  trimStart (trimEnd s) = trimEnd (trimStart s).
Proof.
  unfold trimEnd.
  induction s as [|c r IH]; simpl.
  - reflexivity.
  - destruct (is_ws c) eqn:Hc.
    + rewrite <- IH. clear IH.
      destruct (trimStart_suffix (rev r)) as [p [Hp Heq]].
      destruct (trimStart (rev r)) as [|d t] eqn:E.
      * assert (Hb : blank (rev r ++ [c]) = true).
        { rewrite blank_app. apply trimStart_blank in E. rewrite E.
          simpl. now rewrite Hc. }
        apply trimStart_blank in Hb. rewrite Hb. reflexivity.
      * assert (Hd : is_ws d = false) by exact (trimStart_head _ E).
        assert (E2 : trimStart (rev r ++ [c]) = (d :: t) ++ [c]).
        { rewrite Heq at 1. rewrite <- app_assoc.
          clear Heq E. induction p as [|x p IHp]; simpl.
          - now rewrite Hd.
          - simpl in Hp. apply andb_true_iff in Hp as [Hx Hp].
            rewrite Hx. now apply IHp. }
        rewrite E2, rev_app_distr. simpl. now rewrite Hc.
    + simpl.
      assert (Hlast : exists u, trimStart (rev r ++ [c]) = u ++ [c]).
      { clear IH. induction (rev r) as [|x l IHl]; simpl.
        - rewrite Hc. now exists [].
        - destruct (is_ws x); [exact IHl|]. now exists (x :: l). }
      destruct Hlast as [u Hu]. rewrite Hu, rev_app_distr. simpl.
      now rewrite Hc.
Qed.

Lemma trim_idempotent (s : jsstring) : trim (trim s) = trim s.
Proof.
  unfold trim.
  rewrite trimStart_trimEnd, trimStart_fixed.
  unfold trimEnd at 1 2.
  now rewrite rev_involutive, trimStart_fixed.
Qed.

(** ** The session invariant holds in every reachable state *)

Lemma turnInvariant_mount (rec : bool) (qs : list InterviewQuestion) :
  qs <> [] -> turnInvariant (mount rec qs).
Proof.
  intros Hqs. unfold turnInvariant; simpl.
  repeat split; try reflexivity.
  destruct qs; [congruence | simpl; lia].
Qed.

Lemma hasNextQuestion_true (s : State) :
  hasNextQuestion s = true ->
  S (currentQuestionIndex s) < List.length (questions s).
Proof. unfold hasNextQuestion. intros H. apply Z.ltb_lt in H. lia. Qed.

Lemma hasNextQuestion_false (s : State) :
  hasNextQuestion s = false ->
  List.length (questions s) <= S (currentQuestionIndex s).
Proof. unfold hasNextQuestion. intros H. apply Z.ltb_ge in H. lia. Qed.

Ltac split_bools :=
  repeat match goal with
         | H : _ && _ = true |- _ => apply andb_true_iff in H; destruct H
         | H : negb _ = true |- _ => apply negb_true_iff in H
         | H : _ || _ = false |- _ => apply orb_false_iff in H; destruct H
         end.

Lemma turnInvariant_step (ev : Event) (w w' : Sys) :
  turnInvariant w -> step ev w = Some w' -> turnInvariant w'.
Proof.
  unfold step. intros Inv H.
  destruct (enabled ev w) eqn:En; [|discriminate].
  destruct (dispatch ev w) as [[s' e] calls] eqn:D.
  injection H as <-.
  destruct w as [rec s calls0 tr].
  unfold turnInvariant in *. simpl in *.
  destruct Inv as (Hres & Hidx & Hfl & Hst).
  destruct ev; simpl in En, D.
  - (* ClickSubmit *)
    unfold submitEnabled, footerHasSubmit, rendered, mounted, hasFeedback
      in En.
    split_bools.
    destruct (feedback s) eqn:Hf; [discriminate|].
    unfold handleSubmitAnswer in D.
    destruct (negb (truthy (resolvedAnswer None s)));
      [|destruct (currentQuestion s)];
      injection D as <- _ <-; simpl;
      destruct (appState s); try discriminate; simpl in *;
      repeat split; try tauto; try congruence.
    all: rewrite H2 in Hfl; rewrite ?length_app; simpl;
      unfold hasFeedback in Hst; rewrite ?Hf in Hst;
      intuition (try lia; try congruence).
  - (* ClickMicrophone *)
    unfold handleToggleListening in D.
    destruct (isListening s), rec; injection D as <- _ <-; simpl;
      repeat split; assumption.
  - (* ClickNext *)
    unfold footerHasNext, rendered, mounted, hasFeedback in En. split_bools.
    unfold handleNextQuestion in D.
    destruct (hasNextQuestion s) eqn:Hn; injection D as <- _ <-; simpl.
    + apply hasNextQuestion_true in Hn.
      destruct (appState s); try discriminate;
        destruct (feedback s); try discriminate;
        destruct Hst as (Ha & Hfb & Hlen); try discriminate.
      rewrite Ha in *. repeat split; try assumption; lia.
    + apply hasNextQuestion_false in Hn.
      destruct (appState s); try discriminate;
        destruct (feedback s); try discriminate;
        destruct Hst as (Ha & Hfb & Hlen); try discriminate.
      rewrite Ha in *. repeat split; try assumption; lia.
  - (* ClickToggleSpokenFeedback *)
    assert (Hs : fst (handleToggleSpokenFeedback s) = s).
    { unfold handleToggleSpokenFeedback.
      destruct (speechState s); try reflexivity;
        destruct (feedback s) as [f|]; try reflexivity;
        destruct (truthy (spokenFeedback f)); reflexivity. }
    injection D as <- _ <-. rewrite Hs. repeat split; assumption.
  - (* TypeText *)
    unfold onChange in D.
    destruct (isListening s), rec; injection D as <- _ <-; simpl;
      repeat split; assumption.
  - (* RecognitionResult *)
    injection D as <- _ <-. unfold onresult.
    destruct (collectChunks rs [] []) as [final interim].
    destruct (truthy final); simpl; repeat split; assumption.
  - (* RecognitionEnd *)
    injection D as <- _ <-. simpl. repeat split; assumption.
  - (* Utterance *)
    destruct u; injection D as <- _ <-; simpl; repeat split; assumption.
  - (* Fulfilled *)
    split_bools.
    destruct calls0 as [|p rest]; [discriminate|].
    injection D as <- _ <-. simpl in *.
    destruct (isAnalyzing s) eqn:Ha; [|discriminate].
    assert (Hlen : List.length (results s) = currentQuestionIndex s)
      by (destruct (appState s); intuition congruence).
    rewrite length_app. simpl.
    repeat split; try congruence; try lia.
  - (* Rejected *)
    split_bools.
    destruct calls0 as [|p rest]; [discriminate|].
    injection D as <- _ <-. simpl in *.
    destruct (isAnalyzing s) eqn:Ha; [|discriminate].
    assert (Hlen : feedback s = None /\
                   List.length (results s) = currentQuestionIndex s)
      by (destruct (appState s); intuition congruence).
    repeat split; try tauto; try lia.
Qed.

Lemma turnInvariant_reachable (w : Sys) : reachable w -> turnInvariant w.
Proof.
  induction 1 as [rec qs Hqs | ev w w' _ IH Hstep].
  - now apply turnInvariant_mount.
  - exact (turnInvariant_step ev IH Hstep).
Qed.

(** ** Stepping *)

Lemma step_inv (ev : Event) (w w' : Sys) :
  step ev w = Some w' ->
  enabled ev w = true /\
  recognition w' = recognition w /\
  st w' = fst (fst (dispatch ev w)) /\
  inflight w' = snd (dispatch ev w) /\
  trace w' =
    trace w ++ snd (fst (dispatch ev w))
      ++ (if mounted (fst (fst (dispatch ev w)))
          then afterRender (recognition w) (st w) (fst (fst (dispatch ev w)))
          else recognitionCleanup (recognition w)).
Proof.
  unfold step. destruct (enabled ev w); [|discriminate].
  destruct (dispatch ev w) as [[s' e] calls].
  intros H. injection H as <-. simpl. repeat split; reflexivity.
Qed.

Lemma reachable_run (evs : list Event) (w w' : Sys) :
  reachable w -> run evs w = Some w' -> reachable w'.
Proof.
  revert w. induction evs as [|ev rest IH]; simpl; intros w Hw Hrun.
  - injection Hrun as <-. exact Hw.
  - destruct (step ev w) as [w1|] eqn:Hstep; [|discriminate].
    apply (IH w1); [|exact Hrun].
    exact (reachable_step ev Hw Hstep).
Defined.

Lemma reachable_after (evs : list Event) (w : Sys) :
  reachable w -> reachable (after evs w).
Proof.
  intros Hw. unfold after.
  destruct (run evs w) as [w'|] eqn:Hrun.
  - exact (reachable_run evs Hw Hrun).
  - exact Hw.
Defined.

Lemma reachable_sample (rec : bool) (evs : list Event) :
  reachable (after evs (mount rec [sampleQuestion])).
Proof.
  apply reachable_after, reachable_mount. discriminate.
Defined.

Lemma jsstring_eqb_refl (a : jsstring) : jsstring_eqb a a = true.
Proof.
  induction a as [|c r IH]; simpl; [reflexivity|].
  now rewrite N.eqb_refl, IH.
Qed.

(** A render that changes none of the dependencies runs no effect. *)
Lemma afterRender_same_deps (rec : bool) (prev next : State) :
  isListening next = isListening prev ->
  finalTranscript next = finalTranscript prev ->
  transcript next = transcript prev ->
  textAnswer next = textAnswer prev ->
  currentQuestionIndex next = currentQuestionIndex prev ->
  hasFeedback next = hasFeedback prev ->
  afterRender rec prev next = [].
Proof.
  intros H1 H2 H3 H4 H5 H6.
  unfold afterRender, recognitionDepsChanged, submitCallbackChanged,
    speechDepsChanged.
  rewrite H1, H2, H3, H4, H5, H6.
  rewrite !jsstring_eqb_refl, Nat.eqb_refl, !Bool.eqb_reflx.
  reflexivity.
Qed.

(** The screen is never unmounted with an evaluator call in flight, so the
    settlement of a call always finds its handler. *)
Lemma unmounted_nothing_in_flight (w : Sys) :
  reachable w -> mounted (st w) = false -> inflight w = [].
Proof.
  intros Hw Hm. apply turnInvariant_reachable in Hw.
  destruct Hw as (_ & _ & Hfl & Hst).
  unfold mounted in Hm.
  destruct (appState (st w)); try discriminate; try contradiction.
  destruct Hst as (Ha & _). rewrite Ha in Hfl.
  destruct (inflight w); [reflexivity | discriminate].
Qed.

(** ** At most one evaluator call in flight *)

(** Where the guard lives: [handleSubmitAnswer] does not read
    [isAnalyzing].  Run by hand in the state reached by typing "a" and
    pressing submit, it would issue a call; no control of the screen runs
    it there, which is what the theorem below rests on. *)
Lemma handleSubmitAnswer_ignores_isAnalyzing :
  option_map st (run [TypeText (js "a"); ClickSubmit]
                     (mount true [sampleQuestion])) = Some analyzingState /\
  isAnalyzing analyzingState = true /\
  handleSubmitAnswer true None analyzingState =
    (analyzingState,
     [AnalyzeAnswer (question sampleQuestion) (js "a")
                    (keywords sampleQuestion)],
     Some {| p_question := sampleQuestion; p_answer := js "a" |}).
Proof. repeat split; vm_compute; reflexivity. Qed.

(** C1: in every session state in which an analysis is in flight, a submit
    is rejected without a second evaluator call.  In every reachable state
    at most one evaluator call is in flight, one is in flight exactly when
    [isAnalyzing] holds, and while it holds the footer shows the spinner in
    place of the submit button, the only caller of [handleSubmitAnswer]:
    the submit is no event of the session, so nothing is issued and nothing
    is queued. *)
Theorem at_most_one_call_in_flight (w : Sys) :
  reachable w ->
  List.length (inflight w) <= 1 /\
  (isAnalyzing (st w) = true <-> List.length (inflight w) = 1) /\
  (isAnalyzing (st w) = true ->
   footerHasSubmit (st w) = false /\ step ClickSubmit w = None).
Proof.
  intros Hw. apply turnInvariant_reachable in Hw.
  destruct Hw as (_ & _ & Hfl & _).
  destruct (isAnalyzing (st w)) eqn:Ha.
  - repeat split; try lia; try congruence.
    + unfold footerHasSubmit. rewrite Ha.
      destruct (rendered (st w)); reflexivity.
    + unfold step. simpl. unfold submitEnabled, footerHasSubmit.
      rewrite Ha. destruct (rendered (st w)); reflexivity.
  - repeat split; try lia; try congruence; try discriminate.
Qed.

Lemma at_most_one_call_in_flight_witness :
  let w := after [TypeText (js "a"); ClickSubmit]
                 (mount true [sampleQuestion]) in
  isAnalyzing (st w) = true /\
  List.length (inflight w) = 1 /\
  step ClickSubmit w = None.
Proof.
  intros w.
  assert (Ha : isAnalyzing (st w) = true) by reflexivity.
  destruct (@at_most_one_call_in_flight w (reachable_sample true _))
    as (_ & Hiff & Hgate).
  split; [exact Ha|].
  split; [exact (proj1 Hiff Ha) | exact (proj2 (Hgate Ha))].
Defined.

(** ** Resolution of the answer text *)

(** The edges of the two-level resolution, on inputs that no caller
    produces: a blank override, or a finalized transcript of whitespace
    only, falls straight through to the typed text.  The submit button
    passes no override, and the finalized transcript of a session is always
    trimmed. *)
Lemma answerToSubmit_blank_override_falls_to_typed :
  answerToSubmit (Some []) (js "spoken") [] (js "typed") = js "typed" /\
  answerToSubmit (Some []) (js "spoken") [] (js "typed")
    <> resolve_spec_provided (Some []) (js "spoken") [] (js "typed") /\
  answerToSubmit (Some []) (js "spoken") [] (js "typed")
    <> resolve_spec_first_text (Some []) (js "spoken") [] (js "typed") /\
  answerToSubmit None (js " ") (js "interim") (js "typed")
    <> resolve_spec_provided None (js " ") (js "interim") (js "typed") /\
  answerToSubmit None (js " ") (js "interim") (js "typed")
    <> resolve_spec_first_text None (js " ") (js "interim") (js "typed").
Proof. repeat split; vm_compute; try reflexivity; discriminate. Qed.

(** The resolution as the handler computes it: the spoken candidate is the
    override when one is provided, else the finalized transcript when it is
    a non-empty string, else the interim transcript.  When the candidate
    holds text other than whitespace the answer is the candidate, trimmed;
    otherwise the answer is the typed text, trimmed.  The answer is always
    in trimmed form. *)
Theorem answerToSubmit_precedence (answerOverride : option jsstring)
    (final interim typed : jsstring) :
  let candidate := match answerOverride with
                   | Some o => o
                   | None => if truthy final then final else interim
                   end in
  answerToSubmit answerOverride final interim typed =
    (if blank candidate then trim typed else trim candidate) /\
  trim (answerToSubmit answerOverride final interim typed) =
    answerToSubmit answerOverride final interim typed.
Proof.
  intros candidate. split.
  - unfold answerToSubmit, spokenAnswer, or_else at 1.
    fold (or_else final interim).
    replace (match answerOverride with
             | Some o => o
             | None => or_else final interim
             end) with candidate by reflexivity.
    rewrite truthy_trim.
    destruct (blank candidate); simpl.
    + reflexivity.
    + apply trim_idempotent.
  - unfold answerToSubmit. apply trim_idempotent.
Qed.

(** On the inputs the rendered controls produce (no override, a finalized
    transcript that is empty or holds text) the code agrees with the
    stated order. *)
Lemma answerToSubmit_agrees_with_spec (final interim typed : jsstring) :
  (final = [] \/ blank final = false) ->
  answerToSubmit None final interim typed =
    resolve_spec_first_text None final interim typed.
Proof.
  intros Hfinal.
  unfold answerToSubmit, spokenAnswer, resolve_spec_first_text, or_else.
  destruct Hfinal as [-> | Hb].
  - simpl. rewrite truthy_trim.
    destruct (blank interim); simpl; [reflexivity | apply trim_idempotent].
  - rewrite Hb. destruct final as [|c r]; [discriminate|].
    simpl truthy. cbv iota. rewrite truthy_trim, Hb. simpl.
    apply trim_idempotent.
Qed.

(** ** Submitting *)

Lemma setters_undo_analyzing (s : State) :
  isAnalyzing s = false -> appState s = INTERVIEW ->
  setAppState INTERVIEW
    (setIsAnalyzing false (setAppState ANALYZING (setIsAnalyzing true s)))
  = s.
Proof.
  destruct s; simpl. intros -> ->. reflexivity.
Qed.

(** The resolved answer is in trimmed form, so it is whitespace-only exactly
    when it is empty. *)
Lemma resolvedAnswer_blank_empty (answerOverride : option jsstring)
    (s : State) :
  blank (resolvedAnswer answerOverride s) = true ->
  resolvedAnswer answerOverride s = [].
Proof.
  intros Hb. apply trim_blank in Hb.
  unfold resolvedAnswer, answerToSubmit in *.
  now rewrite trim_idempotent in Hb.
Qed.

(** C3: a submit from the presenting state ([appState = INTERVIEW], no
    analysis running) whose resolved answer is empty or whitespace-only
    issues no evaluator call and records no continuation.  The handler
    sets [isAnalyzing] and [ANALYZING] and resets both before it returns,
    in one synchronous run, so the state after the handler is the state
    before it: the same question is presented and neither the session nor
    the host state changed.  The only command sent out is
    [recognition.stop()] when capture was on. *)
Theorem empty_answer_rejected_locally (rec : bool)
    (answerOverride : option jsstring) (s : State) :
  blank (resolvedAnswer answerOverride s) = true ->
  isAnalyzing s = false ->
  appState s = INTERVIEW ->
  handleSubmitAnswer rec answerOverride s =
    (s, if isListening s && rec then [RecognitionStop] else [], None) /\
  countAnalyzeAnswer (snd (fst (handleSubmitAnswer rec answerOverride s))) = 0.
Proof.
  intros Hblank Ha Hst.
  apply resolvedAnswer_blank_empty in Hblank.
  unfold handleSubmitAnswer. rewrite Hblank. simpl.
  rewrite (setters_undo_analyzing s Ha Hst).
  split; [reflexivity|].
  destruct (isListening s && rec); reflexivity.
Qed.

Lemma empty_answer_rejected_locally_witness :
  let s := setTextAnswer (js "   ") (initialState [sampleQuestion]) in
  handleSubmitAnswer true None s = (s, [], None) /\
  countAnalyzeAnswer (snd (fst (handleSubmitAnswer true None s))) = 0.
Proof.
  intros s.
  apply (@empty_answer_rejected_locally true None s); reflexivity.
Defined.

(** C4: a submit with a question on screen and a resolved answer that is
    not empty issues one [analyzeAnswer] call for that question and answer.
    When the call is fulfilled with feedback [F], on whatever state [s2]
    the session is in by then, the result (question, answer, [F]) is
    appended to both result lists, [F] becomes [feedback], the host state
    becomes [FEEDBACK], [isAnalyzing] is cleared, and the spoken feedback
    is played exactly when it is a non-empty string. *)
Theorem successful_analysis_recorded (rec : bool)
    (answerOverride : option jsstring) (s s2 : State)
    (q : InterviewQuestion) (F : AnswerFeedback) :
  currentQuestion s = Some q ->
  resolvedAnswer answerOverride s <> [] ->
  let answer := resolvedAnswer answerOverride s in
  let p := {| p_question := q; p_answer := answer |} in
  let newResult := {| res_question := q; res_answer := answer;
                      res_feedback := F |} in
  handleSubmitAnswer rec answerOverride s =
    (setAppState ANALYZING (setIsAnalyzing true s),
     (if isListening s && rec then [RecognitionStop] else [])
       ++ [AnalyzeAnswer (question q) answer (keywords q)],
     Some p) /\
  let s3 := fst (handleSubmitAnswer_fulfilled p F s2) in
  results s3 = results s2 ++ [newResult] /\
  appResults s3 = appResults s2 ++ [newResult] /\
  feedback s3 = Some F /\
  appState s3 = FEEDBACK /\
  isAnalyzing s3 = false /\
  snd (handleSubmitAnswer_fulfilled p F s2) =
    (if truthy (spokenFeedback F)
     then [SynthCancel; SynthSpeak (spokenFeedback F)] else []).
Proof.
  intros Hq Hne answer p newResult. split.
  - subst answer p. unfold handleSubmitAnswer. rewrite Hq.
    destruct (resolvedAnswer answerOverride s); [congruence | reflexivity].
  - simpl. repeat split; reflexivity.
Qed.

Lemma successful_analysis_recorded_witness :
  let s := setTextAnswer (js " I optimize for readability first ")
             (initialState [sampleQuestion]) in
  let answer := js "I optimize for readability first" in
  let p := {| p_question := sampleQuestion; p_answer := answer |} in
  let s2 := setAppState ANALYZING (setIsAnalyzing true s) in
  handleSubmitAnswer true None s =
    (s2,
     [AnalyzeAnswer (question sampleQuestion) answer
                    (keywords sampleQuestion)],
     Some p) /\
  results (fst (handleSubmitAnswer_fulfilled p sampleFeedback s2)) =
    [{| res_question := sampleQuestion; res_answer := answer;
        res_feedback := sampleFeedback |}] /\
  snd (handleSubmitAnswer_fulfilled p sampleFeedback s2) =
    [SynthCancel; SynthSpeak (js "Good start.")].
Proof.
  intros s answer p s2.
  assert (Hq : currentQuestion s = Some sampleQuestion) by reflexivity.
  assert (Hne : resolvedAnswer None s <> []) by (vm_compute; discriminate).
  destruct (@successful_analysis_recorded true None s s2 sampleQuestion
              sampleFeedback Hq Hne)
    as (H1 & H2 & _ & _ & _ & _ & H3).
  split; [exact H1 | split; [exact H2 | exact H3]].
Defined.

(** ** Capture *)

(** C9: pressing the microphone while capture is off empties the interim
    transcript, the finalized transcript and the typed text, whether or not
    the device exists, so no input mode holds text and the answer box shows
    nothing; nothing else in the state changes except [isListening], which
    is set when the device exists, after [recognition.start()]. *)
Theorem start_capture_clears_inputs (rec : bool) (s : State) :
  isListening s = false ->
  let s' := fst (handleToggleListening rec s) in
  transcript s' = [] /\ finalTranscript s' = [] /\ textAnswer s' = [] /\
  displayedAnswer s' = [] /\
  isListening s' = rec /\
  snd (handleToggleListening rec s) =
    [if rec then RecognitionStart else UncaughtTypeError] /\
  appState s' = appState s /\ appResults s' = appResults s /\
  questions s' = questions s /\
  currentQuestionIndex s' = currentQuestionIndex s /\
  feedback s' = feedback s /\ isAnalyzing s' = isAnalyzing s /\
  results s' = results s /\ speechState s' = speechState s.
Proof.
  intros Hl. unfold handleToggleListening. rewrite Hl.
  destruct rec; simpl; unfold displayedAnswer; simpl; rewrite ?Hl;
    repeat split; reflexivity.
Qed.

Lemma start_capture_clears_inputs_witness :
  let s := setTextAnswer (js "typed so far")
             (setTranscript (js "old words")
                (setFinalTranscript (fun _ => js "old words")
                   (initialState [sampleQuestion]))) in
  let s' := fst (handleToggleListening true s) in
  transcript s' = [] /\ finalTranscript s' = [] /\ textAnswer s' = [] /\
  isListening s' = true.
Proof.
  intros s s'.
  assert (Hl : isListening s = false) by reflexivity.
  destruct (@start_capture_clears_inputs true s Hl)
    as (H1 & H2 & H3 & _ & H5 & _).
  split; [exact H1 | split; [exact H2 | split; [exact H3 | exact H5]]].
Defined.

(** ** Evaluator failure *)

(** C5, as stated, fails in its last part: after typing "a", submitting and
    having the evaluator call rejected, the session is back at question 0
    in [INTERVIEW] with no result recorded and the alert shown, but the
    typed text is still "a"; and an answer captured by voice is still in
    both transcript buffers. *)
Lemma failed_analysis_keeps_typed_text :
  let w := after [TypeText (js "a"); ClickSubmit; Rejected]
                 (mount true [sampleQuestion]) in
  let v := after [ClickMicrophone;
                  RecognitionResult [(js "caching", true)];
                  ClickSubmit; Rejected]
                 (mount true [sampleQuestion]) in
  appState (st w) = INTERVIEW /\
  countAlerts msgAnalysisError (trace w) = 1 /\
  textAnswer (st w) = js "a" /\ textAnswer (st w) <> [] /\
  countAlerts msgAnalysisError (trace v) = 1 /\
  transcript (st v) = js "caching" /\
  finalTranscript (st v) = js "caching".
Proof.
  vm_compute. repeat split; try reflexivity. discriminate.
Qed.

(** C5, amended: when the evaluator call of a reachable session is
    rejected, the error is logged and the alert is shown, the host state
    returns to [INTERVIEW] with no analysis running and no feedback, the
    question index and both result lists are unchanged, no call is left in
    flight, and the captured and typed input is kept as it was: transcript,
    finalized transcript and typed text are unchanged, ready to be
    submitted again. *)
Theorem failed_analysis_returns_to_question (w w' : Sys) :
  reachable w ->
  step Rejected w = Some w' ->
  appState (st w') = INTERVIEW /\
  isAnalyzing (st w') = false /\
  feedback (st w') = None /\
  currentQuestionIndex (st w') = currentQuestionIndex (st w) /\
  results (st w') = results (st w) /\
  appResults (st w') = appResults (st w) /\
  transcript (st w') = transcript (st w) /\
  finalTranscript (st w') = finalTranscript (st w) /\
  textAnswer (st w') = textAnswer (st w) /\
  inflight w' = [] /\
  trace w' = trace w ++ [ConsoleError; Alert msgAnalysisError].
Proof.
  intros Hw Hstep.
  apply turnInvariant_reachable in Hw.
  destruct Hw as (_ & _ & Hfl & Hst).
  apply step_inv in Hstep.
  destruct Hstep as (En & _ & Hs & Hcalls & Htr).
  simpl in En, Hs, Hcalls, Htr.
  apply andb_true_iff in En as [Hm Hne].
  destruct (inflight w) as [|p rest] eqn:Hin; [discriminate|].
  destruct (isAnalyzing (st w)) eqn:Ha; [|discriminate].
  assert (Hfb : feedback (st w) = None)
    by (destruct (appState (st w)); intuition congruence).
  rewrite Hs. simpl. repeat split; try assumption.
  - rewrite Hcalls. simpl in *. destruct rest; [reflexivity|discriminate].
  - rewrite Htr, afterRender_same_deps; reflexivity.
Qed.

Lemma failed_analysis_returns_to_question_witness :
  let w := after [TypeText (js "a"); ClickSubmit]
                 (mount true [sampleQuestion]) in
  let w' := after [Rejected] w in
  step Rejected w = Some w' /\
  appState (st w') = INTERVIEW /\
  textAnswer (st w') = textAnswer (st w) /\
  inflight w' = [].
Proof.
  intros w w'.
  assert (Hstep : step Rejected w = Some w') by (vm_compute; reflexivity).
  destruct (@failed_analysis_returns_to_question w w'
              (reachable_sample true _) Hstep)
    as (H1 & _ & _ & _ & _ & _ & _ & _ & H9 & H10 & _).
  split; [exact Hstep | split; [exact H1 | split; [exact H9 | exact H10]]].
Defined.

(** ** Advancing *)

(** C6, as stated, fails at the last question: in a session of one
    question, advancing out of the review leaves [currentQuestionIndex] at
    0 (it is not incremented) and the host state is [COMPLETE], so the
    session is over while the index is not [questions.length]. *)
Lemma last_advance_keeps_index :
  let w := after [TypeText (js "a"); ClickSubmit; Fulfilled sampleFeedback;
                  ClickNext]
                 (mount true [sampleQuestion]) in
  appState (st w) = COMPLETE /\
  currentQuestionIndex (st w) = 0 /\
  List.length (questions (st w)) = 1 /\
  currentQuestionIndex (st w) <> List.length (questions (st w)).
Proof.
  vm_compute. repeat split; try reflexivity. discriminate.
Qed.

(** C6, amended: in every reachable state [currentQuestionIndex] is a valid
    index into [questions]; the session is over (the screen is unmounted)
    exactly when the host state is [COMPLETE], and then the index is that
    of the last question.  An advance cancels playback, sets the speech
    state to idle, clears the feedback, both transcript buffers and the
    typed text; it increments the index and returns to [INTERVIEW] when a
    next question exists, and otherwise leaves the index alone and sets
    [COMPLETE]. *)
Theorem advance_from_review (w : Sys) :
  reachable w ->
  currentQuestionIndex (st w) < List.length (questions (st w)) /\
  (mounted (st w) = false <-> appState (st w) = COMPLETE) /\
  (appState (st w) = COMPLETE ->
   S (currentQuestionIndex (st w)) = List.length (questions (st w))) /\
  forall w', step ClickNext w = Some w' ->
    (exists after_render, trace w' = trace w ++ SynthCancel :: after_render) /\
    speechState (st w') = idle /\
    feedback (st w') = None /\
    transcript (st w') = [] /\
    finalTranscript (st w') = [] /\
    textAnswer (st w') = [] /\
    questions (st w') = questions (st w) /\
    results (st w') = results (st w) /\
    (S (currentQuestionIndex (st w)) < List.length (questions (st w)) ->
     currentQuestionIndex (st w') = S (currentQuestionIndex (st w)) /\
     appState (st w') = INTERVIEW) /\
    (S (currentQuestionIndex (st w)) = List.length (questions (st w)) ->
     currentQuestionIndex (st w') = currentQuestionIndex (st w) /\
     appState (st w') = COMPLETE).
Proof.
  intros Hw. apply turnInvariant_reachable in Hw.
  destruct Hw as (_ & Hidx & _ & Hst).
  split; [exact Hidx|]. split; [|split].
  - unfold mounted. destruct (appState (st w)); try contradiction;
      split; congruence.
  - intros Hc. rewrite Hc in Hst. tauto.
  - intros w' Hstep. apply step_inv in Hstep.
    destruct Hstep as (_ & _ & Hs & _ & Htr).
    simpl in Hs, Htr. rewrite Hs. unfold handleNextQuestion in *.
    destruct (hasNextQuestion (st w)) eqn:Hn; simpl in *.
    + apply hasNextQuestion_true in Hn.
      split; [eexists; exact Htr|].
      repeat split; try reflexivity; try lia.
    + apply hasNextQuestion_false in Hn.
      split; [eexists; exact Htr|].
      repeat split; try reflexivity; try lia.
Qed.

Lemma advance_from_review_witness :
  let w := after [TypeText (js "a"); ClickSubmit; Fulfilled sampleFeedback]
                 (mount true [sampleQuestion; sampleQuestion]) in
  currentQuestionIndex (st w) < List.length (questions (st w)) /\
  currentQuestionIndex (st (after [ClickNext] w)) = 1 /\
  appState (st (after [ClickNext] w)) = INTERVIEW.
Proof.
  intros w.
  assert (Hw : reachable w)
    by (apply reachable_after, reachable_mount; discriminate).
  destruct (@advance_from_review w Hw) as (H1 & _ & _ & Hnext).
  assert (Hstep : step ClickNext w = Some (after [ClickNext] w))
    by (vm_compute; reflexivity).
  destruct (Hnext _ Hstep) as (_ & _ & _ & _ & _ & _ & _ & _ & Hmore & _).
  assert (Hlt : S (currentQuestionIndex (st w))
                < List.length (questions (st w))) by (vm_compute; lia).
  destruct (Hmore Hlt) as (H2 & H3).
  split; [exact H1 | split; [exact H2 | exact H3]].
Defined.

(** ** The collected results *)

(** Every handler leaves both result lists alone or appends to them. *)
Lemma dispatch_results_extend (ev : Event) (w : Sys) :
  exists more,
    results (fst (fst (dispatch ev w))) = results (st w) ++ more /\
    appResults (fst (fst (dispatch ev w))) = appResults (st w) ++ more.
Proof.
  destruct ev; simpl.
  - unfold handleSubmitAnswer.
    destruct (negb (truthy (resolvedAnswer None (st w))));
      [|destruct (currentQuestion (st w))];
      exists []; simpl; now rewrite !app_nil_r.
  - unfold handleToggleListening.
    destruct (isListening (st w)), (recognition w);
      exists []; simpl; now rewrite !app_nil_r.
  - unfold handleNextQuestion.
    destruct (hasNextQuestion (st w));
      exists []; simpl; now rewrite !app_nil_r.
  - unfold handleToggleSpokenFeedback.
    destruct (speechState (st w)); try (exists []; simpl; now rewrite !app_nil_r);
      destruct (feedback (st w)) as [f|];
      try destruct (truthy (spokenFeedback f));
      exists []; simpl; now rewrite !app_nil_r.
  - unfold onChange.
    destruct (isListening (st w)), (recognition w);
      exists []; simpl; now rewrite !app_nil_r.
  - unfold onresult.
    destruct (collectChunks rs [] []) as [final interim].
    destruct (truthy final); exists []; simpl; now rewrite !app_nil_r.
  - exists []. simpl. now rewrite !app_nil_r.
  - destruct u; exists []; simpl; now rewrite !app_nil_r.
  - destruct (inflight w) as [|p rest]; simpl.
    + exists []. now rewrite !app_nil_r.
    + eexists. split; reflexivity.
  - exists []. simpl. now rewrite !app_nil_r.
Qed.

(** C7, as stated, fails while a turn is under review: after the first
    answer is analyzed the result list has one entry and the index is still
    0.  It also fails once the session is complete, where no turn is under
    review and the list is one longer than the index. *)
Lemma results_exceed_index_in_review :
  let w := after [TypeText (js "a"); ClickSubmit; Fulfilled sampleFeedback]
                 (mount true [sampleQuestion]) in
  appState (st w) = FEEDBACK /\
  List.length (results (st w)) = 1 /\
  currentQuestionIndex (st w) = 0 /\
  ~ List.length (results (st w)) <= currentQuestionIndex (st w) /\
  hasFeedback (st (after [ClickNext] w)) = false /\
  List.length (results (st (after [ClickNext] w)))
    <> currentQuestionIndex (st (after [ClickNext] w)).
Proof.
  vm_compute. repeat split; try reflexivity; try discriminate. lia.
Qed.

(** C7, amended: in every reachable state the host's and the screen's
    result lists are equal; their length is [currentQuestionIndex] while a
    question is presented or analyzed, and [currentQuestionIndex + 1] while
    feedback is under review and when the session is complete (so it never
    exceeds the index by more than one); feedback is present exactly in the
    [FEEDBACK] state; and no event shrinks the list: every step keeps it as
    a prefix. *)
Theorem results_track_turns (w : Sys) :
  reachable w ->
  appResults (st w) = results (st w) /\
  (appState (st w) = INTERVIEW \/ appState (st w) = ANALYZING ->
   List.length (results (st w)) = currentQuestionIndex (st w)) /\
  (appState (st w) = FEEDBACK \/ appState (st w) = COMPLETE ->
   List.length (results (st w)) = S (currentQuestionIndex (st w))) /\
  List.length (results (st w)) <= S (currentQuestionIndex (st w)) /\
  (hasFeedback (st w) = true <-> appState (st w) = FEEDBACK) /\
  forall ev w', step ev w = Some w' ->
    exists more, results (st w') = results (st w) ++ more.
Proof.
  intros Hw. apply turnInvariant_reachable in Hw.
  destruct Hw as (Hres & _ & _ & Hst).
  split; [exact Hres|].
  assert (Hcases :
    (appState (st w) = INTERVIEW \/ appState (st w) = ANALYZING ->
     List.length (results (st w)) = currentQuestionIndex (st w)) /\
    (appState (st w) = FEEDBACK \/ appState (st w) = COMPLETE ->
     List.length (results (st w)) = S (currentQuestionIndex (st w))) /\
    (hasFeedback (st w) = true <-> appState (st w) = FEEDBACK)).
  { unfold hasFeedback in *.
    destruct (appState (st w)); try contradiction;
      destruct (feedback (st w));
      intuition (try congruence; try discriminate). }
  destruct Hcases as (H1 & H2 & H3).
  repeat split; try assumption; try apply H3.
  - destruct (appState (st w)); try contradiction.
    + rewrite H1; [lia | now left].
    + rewrite H1; [lia | now right].
    + rewrite H2; [lia | now left].
    + rewrite H2; [lia | now right].
  - intros ev w' Hstep. apply step_inv in Hstep.
    destruct Hstep as (_ & _ & Hs & _).
    destruct (dispatch_results_extend ev w) as [more [Hmore _]].
    exists more. now rewrite Hs.
Qed.

Lemma results_track_turns_witness :
  let w := after [TypeText (js "a"); ClickSubmit; Fulfilled sampleFeedback]
                 (mount true [sampleQuestion]) in
  appResults (st w) = results (st w) /\
  List.length (results (st w)) <= S (currentQuestionIndex (st w)).
Proof.
  intros w.
  destruct (@results_track_turns w (reachable_sample true _))
    as (H1 & _ & _ & H4 & _).
  split; [exact H1 | exact H4].
Defined.

(** ** What a successful analysis leaves alone *)

(** C8, as stated, fails: an answer captured by voice is still in both
    transcript buffers after the evaluator call succeeded and the session
    entered the review. *)
Lemma review_keeps_transcript_buffers :
  let w := after [ClickMicrophone;
                  RecognitionResult [(js "caching", true)];
                  ClickSubmit; Fulfilled sampleFeedback]
                 (mount true [sampleQuestion]) in
  appState (st w) = FEEDBACK /\
  feedback (st w) = Some sampleFeedback /\
  transcript (st w) = js "caching" /\
  finalTranscript (st w) = js "caching" /\
  transcript (st w) <> [] /\
  finalTranscript (st w) <> [].
Proof.
  vm_compute. repeat split; try reflexivity; discriminate.
Qed.

(** C8, amended: the step on which an evaluator call is fulfilled with [F]
    sets [feedback] to [F], the host state to [FEEDBACK] and [isAnalyzing]
    to false, and appends one result to both lists; everything else is
    unchanged: questions, index, capture flag, speech state, and also the
    interim transcript, the finalized transcript and the typed text, which
    are reset only later, by the advance. *)
Theorem fulfilled_changes_only_review_fields (w w' : Sys)
    (F : AnswerFeedback) :
  step (Fulfilled F) w = Some w' ->
  feedback (st w') = Some F /\
  appState (st w') = FEEDBACK /\
  isAnalyzing (st w') = false /\
  (exists r, results (st w') = results (st w) ++ [r] /\
             appResults (st w') = appResults (st w) ++ [r] /\
             res_feedback r = F) /\
  questions (st w') = questions (st w) /\
  currentQuestionIndex (st w') = currentQuestionIndex (st w) /\
  isListening (st w') = isListening (st w) /\
  speechState (st w') = speechState (st w) /\
  transcript (st w') = transcript (st w) /\
  finalTranscript (st w') = finalTranscript (st w) /\
  textAnswer (st w') = textAnswer (st w).
Proof.
  intros Hstep. apply step_inv in Hstep.
  destruct Hstep as (En & _ & Hs & _).
  simpl in En, Hs. apply andb_true_iff in En as [_ Hne].
  destruct (inflight w) as [|p rest]; [discriminate|].
  simpl in Hs. rewrite Hs. simpl.
  split; [reflexivity|]. split; [reflexivity|]. split; [reflexivity|].
  split; [eexists; repeat split; reflexivity|].
  repeat split; reflexivity.
Qed.

Lemma fulfilled_changes_only_review_fields_witness :
  let w := after [ClickMicrophone;
                  RecognitionResult [(js "caching", true)]; ClickSubmit]
                 (mount true [sampleQuestion]) in
  let w' := after [Fulfilled sampleFeedback] w in
  step (Fulfilled sampleFeedback) w = Some w' /\
  feedback (st w') = Some sampleFeedback /\
  transcript (st w') = transcript (st w) /\
  finalTranscript (st w') = finalTranscript (st w).
Proof.
  intros w w'.
  assert (Hstep : step (Fulfilled sampleFeedback) w = Some w')
    by (vm_compute; reflexivity).
  destruct (@fulfilled_changes_only_review_fields w w' sampleFeedback Hstep)
    as (H1 & _ & _ & _ & _ & _ & _ & _ & H9 & H10 & _).
  split; [exact Hstep | split; [exact H1 | split; [exact H9 | exact H10]]].
Defined.

(** ** Reporting a missing capture device *)

Lemma countAlerts_app (msg : jsstring) (a b : list Effect) :
  countAlerts msg (a ++ b) = countAlerts msg a + countAlerts msg b.
Proof.
  unfold countAlerts. now rewrite filter_app, length_app.
Qed.

Lemma jsstring_eqb_neq (a b : jsstring) :
  a <> b -> jsstring_eqb a b = false.
Proof.
  revert b. induction a as [|x a IH]; intros [|y b] Hne; simpl;
    try reflexivity; try congruence.
  destruct (N.eqb_spec x y) as [->|Hxy]; [|reflexivity].
  simpl. apply IH. congruence.
Qed.

(** C10 on the code: without a capture device the alert is shown once when
    the screen mounts, and then once more for every edit of the answer box
    that changes the text.  The alert sits in the effect whose dependencies
    are [finalTranscript] and [handleSubmitAnswer]; the latter is a new
    function on every change of [textAnswer], so the effect runs again. *)
Theorem unsupported_alert_on_every_edit (w w' : Sys) (v : jsstring) :
  recognition w = false ->
  v <> textAnswer (st w) ->
  step (TypeText v) w = Some w' ->
  countAlerts msgUnsupported (trace w')
    = S (countAlerts msgUnsupported (trace w)).
Proof.
  intros Hrec Hv Hstep. apply step_inv in Hstep.
  destruct Hstep as (En & _ & _ & _ & Htr).
  simpl in En, Htr.
  unfold textareaEnabled, rendered in En. split_bools.
  unfold onChange in Htr. rewrite Hrec in Htr.
  match goal with H : isListening (st w) = false |- _ => rewrite H in Htr end.
  simpl in Htr.
  assert (Hm : mounted
                 (setFinalTranscript (fun _ => [])
                    (setTranscript [] (setTextAnswer v (st w)))) = true)
    by assumption.
  rewrite Hm in Htr. rewrite Htr. clear Htr Hm.
  assert (Hdeps : forall a b c : bool,
            a || (b || c || negb (jsstring_eqb (textAnswer (st w)) v)
                  || negb (currentQuestionIndex (st w)
                           =? currentQuestionIndex (st w))) = true).
  { intros a b c. rewrite jsstring_eqb_neq by congruence.
    rewrite Nat.eqb_refl. simpl.
    destruct a, b, c; reflexivity. }
  unfold afterRender, recognitionDepsChanged, submitCallbackChanged,
    speechDepsChanged. simpl.
  rewrite Hdeps, Nat.eqb_refl, Bool.eqb_reflx. simpl.
  rewrite countAlerts_app.
  assert (Hone : countAlerts msgUnsupported [Alert msgUnsupported] = 1)
    by (vm_compute; reflexivity).
  rewrite Hone. lia.
Qed.

Lemma unsupported_alert_on_every_edit_witness :
  let w := mount false [sampleQuestion] in
  let w' := after [TypeText (js "a")] w in
  countAlerts msgUnsupported (trace w) = 1 /\
  countAlerts msgUnsupported (trace w') = 2.
Proof.
  intros w w'.
  assert (H1 : countAlerts msgUnsupported (trace w) = 1)
    by (vm_compute; reflexivity).
  assert (Hrec : recognition w = false) by reflexivity.
  assert (Hv : js "a" <> textAnswer (st w)) by (vm_compute; discriminate).
  assert (Hstep : step (TypeText (js "a")) w = Some w')
    by (vm_compute; reflexivity).
  split; [exact H1|].
  rewrite (@unsupported_alert_on_every_edit w w' (js "a") Hrec Hv Hstep).
  rewrite H1. reflexivity.
Defined.

(** The same on a concrete session: mounting alerts once, typing "a" and
    then "ab" brings the count to three, while a session with the device
    never alerts. *)
Example unsupported_alert_three_times :
  countAlerts msgUnsupported (trace (mount false [sampleQuestion])) = 1 /\
  countAlerts msgUnsupported
    (trace (after [TypeText (js "a"); TypeText (js "ab")]
                  (mount false [sampleQuestion]))) = 3 /\
  textAnswer (st (after [TypeText (js "a"); TypeText (js "ab")]
                        (mount false [sampleQuestion]))) = js "ab" /\
  countAlerts msgUnsupported
    (trace (after [TypeText (js "a"); TypeText (js "ab")]
                  (mount true [sampleQuestion]))) = 0.
Proof. vm_compute. repeat split; reflexivity. Qed.

(** ** More on [trim] *)

Lemma trimEnd_fixed (s : jsstring) : trimEnd (trimEnd s) = trimEnd s.
Proof.
  unfold trimEnd. now rewrite rev_involutive, trimStart_fixed.
Qed.

Lemma trimmed_trimStart (s : jsstring) : trim s = s -> trimStart s = s.
Proof.
  intros H. rewrite <- H. unfold trim.
  now rewrite trimStart_trimEnd, trimStart_fixed.
Qed.

Lemma trimmed_trimEnd (s : jsstring) : trim s = s -> trimEnd s = s.
Proof.
  intros H. rewrite <- H. unfold trim. apply trimEnd_fixed.
Qed.

Lemma trimmed_not_blank (s : jsstring) :
  trim s = s -> s <> [] -> blank s = false.
Proof.
  intros Ht Hne. destruct (blank s) eqn:Hb; [|reflexivity].
  apply trim_blank in Hb. congruence.
Qed.

Lemma trimStart_app (a b : jsstring) :
  trimStart (a ++ b) = if blank a then trimStart b else trimStart a ++ b.
Proof.
  induction a as [|c r IH]; simpl.
  - reflexivity.
  - destruct (is_ws c); simpl; [exact IH | reflexivity].
Qed.

(** Trimming a text that starts with a trimmed, non-empty text keeps that
    start. *)
Lemma trim_keeps_trimmed_prefix (p y : jsstring) :
  trim p = p -> p <> [] ->
  trim (p ++ y) = p ++ (if blank y then [] else trimEnd y).
Proof.
  intros Hp Hne.
  assert (Hb : blank p = false) by now apply trimmed_not_blank.
  unfold trim. rewrite trimStart_app, Hb, (trimmed_trimStart Hp).
  unfold trimEnd. rewrite rev_app_distr, trimStart_app, blank_rev.
  destruct (blank y).
  - fold (trimEnd p). rewrite (trimmed_trimEnd Hp). now rewrite app_nil_r.
  - now rewrite rev_app_distr, rev_involutive.
Qed.

(** ** Capture *)

(** The loop of [onresult] sorts the chunks of one event: the finalized
    ones, in order, and the interim ones, in order. *)
Lemma collectChunks_sorted (rs : list SpeechResult) (final interim : jsstring) :
  collectChunks rs final interim =
    (final ++ List.concat (map fst (filter snd rs)),
     interim ++ List.concat (map fst (filter (fun r => negb (snd r)) rs))).
Proof.
  revert final interim.
  induction rs as [|[chunk [|]] rest IH]; intros final interim; simpl.
  - now rewrite !app_nil_r.
  - rewrite IH. now rewrite <- app_assoc.
  - rewrite IH. now rewrite <- app_assoc.
Qed.

Lemma onresult_finalTranscript (rs : list SpeechResult) (s : State) :
  finalTranscript (onresult rs s) =
    (if truthy (List.concat (map fst (filter snd rs)))
     then trim (finalTranscript s ++ js " "
                  ++ List.concat (map fst (filter snd rs)))
     else finalTranscript s).
Proof.
  unfold onresult. rewrite collectChunks_sorted. simpl app.
  destruct (truthy (List.concat (map fst (filter snd rs)))); reflexivity.
Qed.

(** X1: after a recognition event the answer box shows the finalized
    transcript so far, then all finalized chunks of the event, then all its
    interim chunks, however the event interleaves them; and the finalized
    transcript changes only when the event has finalized text, to the
    trimmed, space-joined concatenation. *)
Theorem onresult_transcripts (rs : list SpeechResult) (s : State) :
  let final := List.concat (map fst (filter snd rs)) in
  let interim := List.concat (map fst (filter (fun r => negb (snd r)) rs)) in
  transcript (onresult rs s) = finalTranscript s ++ final ++ interim /\
  finalTranscript (onresult rs s) =
    (if truthy final then trim (finalTranscript s ++ js " " ++ final)
     else finalTranscript s) /\
  textAnswer (onresult rs s) = textAnswer s /\
  isListening (onresult rs s) = isListening s.
Proof.
  intros final interim. unfold onresult.
  rewrite collectChunks_sorted. simpl app. fold final. fold interim.
  destruct (truthy final); simpl; repeat split; reflexivity.
Qed.

Lemma captureInvariant_step (ev : Event) (w w' : Sys) :
  captureInvariant (st w) -> step ev w = Some w' ->
  captureInvariant (st w').
Proof.
  intros [Htrim Hempty] Hstep. apply step_inv in Hstep.
  destruct Hstep as (_ & _ & Hs & _). rewrite Hs. clear Hs w'.
  unfold captureInvariant.
  destruct ev; simpl.
  - unfold handleSubmitAnswer.
    destruct (negb (truthy (resolvedAnswer None (st w))));
      [|destruct (currentQuestion (st w))]; simpl; split; assumption.
  - unfold handleToggleListening.
    destruct (isListening (st w)), (recognition w); simpl;
      split; solve [assumption | reflexivity].
  - unfold handleNextQuestion.
    destruct (hasNextQuestion (st w)); simpl; split; reflexivity.
  - unfold handleToggleSpokenFeedback.
    destruct (speechState (st w)); simpl; try (split; assumption);
      destruct (feedback (st w)) as [f|]; simpl; try (split; assumption);
      destruct (truthy (spokenFeedback f)); simpl; split; assumption.
  - unfold onChange.
    destruct (isListening (st w)), (recognition w); simpl;
      split; solve [assumption | reflexivity].
  - unfold onresult.
    destruct (collectChunks rs [] []) as [final interim].
    destruct final as [|c r]; simpl.
    + split; [assumption|]. intros H.
      apply app_eq_nil in H. tauto.
    + split; [apply trim_idempotent|]. intros H.
      apply app_eq_nil in H. destruct H as [_ H]. discriminate.
  - split; assumption.
  - destruct u; simpl; split; assumption.
  - destruct (inflight w); simpl; split; assumption.
  - split; assumption.
Qed.

Lemma captureInvariant_reachable (w : Sys) :
  reachable w -> captureInvariant (st w).
Proof.
  induction 1 as [rec qs Hqs | ev w w' _ IH Hstep].
  - split; reflexivity.
  - exact (@captureInvariant_step ev w w' IH Hstep).
Qed.

(** X2: in every reachable state the finalized transcript has no
    surrounding whitespace, and it is empty whenever the displayed
    transcript is empty. *)
Theorem finalTranscript_trimmed (w : Sys) :
  reachable w ->
  trim (finalTranscript (st w)) = finalTranscript (st w) /\
  (finalTranscript (st w) <> [] -> blank (finalTranscript (st w)) = false) /\
  (transcript (st w) = [] -> finalTranscript (st w) = []).
Proof.
  intros Hw. destruct (captureInvariant_reachable Hw) as [Ht He].
  repeat split; try assumption.
  intros Hne. now apply trimmed_not_blank.
Qed.

Lemma finalTranscript_trimmed_witness :
  let w := after [ClickMicrophone;
                  RecognitionResult [(js "  caching ", true)]]
                 (mount true [sampleQuestion]) in
  finalTranscript (st w) = js "caching" /\
  trim (finalTranscript (st w)) = finalTranscript (st w).
Proof.
  intros w.
  split; [reflexivity|].
  exact (proj1 (@finalTranscript_trimmed w (reachable_sample true _))).
Defined.

(** X3: during a session the finalized transcript only grows under
    recognition events: what it held before an event is a prefix of what it
    holds after. *)
Theorem finalTranscript_append_only (w w' : Sys) (rs : list SpeechResult) :
  reachable w ->
  step (RecognitionResult rs) w = Some w' ->
  exists suffix,
    finalTranscript (st w') = finalTranscript (st w) ++ suffix.
Proof.
  intros Hw Hstep.
  destruct (captureInvariant_reachable Hw) as [Ht _].
  apply step_inv in Hstep. destruct Hstep as (_ & _ & Hs & _).
  simpl in Hs. rewrite Hs.
  rewrite onresult_finalTranscript.
  destruct (truthy (List.concat (map fst (filter snd rs)))).
  - destruct (finalTranscript (st w)) as [|c r] eqn:Hf.
    + eexists. reflexivity.
    + rewrite trim_keeps_trimmed_prefix by (assumption || discriminate).
      eexists. reflexivity.
  - exists []. now rewrite app_nil_r.
Qed.

Lemma finalTranscript_append_only_witness :
  let w := after [ClickMicrophone;
                  RecognitionResult [(js "I think", true)]]
                 (mount true [sampleQuestion]) in
  let w' := after [RecognitionResult [(js "it is caching. ", true)]] w in
  finalTranscript (st w') = js "I think it is caching." /\
  exists suffix, finalTranscript (st w') = finalTranscript (st w) ++ suffix.
Proof.
  intros w w'.
  assert (Hstep : step (RecognitionResult [(js "it is caching. ", true)]) w
                  = Some w') by (vm_compute; reflexivity).
  split; [vm_compute; reflexivity|].
  exact (@finalTranscript_append_only w w' _ (reachable_sample true _) Hstep).
Defined.

(** ** What a submit sends *)

Lemma answerToSubmit_candidate (final interim typed : jsstring) :
  answerToSubmit None final interim typed =
    (if blank (or_else final interim) then trim typed
     else trim (or_else final interim)).
Proof.
  unfold answerToSubmit, spokenAnswer.
  unfold or_else at 1. rewrite truthy_trim.
  destruct (blank (or_else final interim)); simpl;
    [reflexivity | apply trim_idempotent].
Qed.

Lemma truthy_nonempty (a : jsstring) : truthy a = true <-> a <> [].
Proof.
  destruct a; simpl; split; congruence.
Qed.

(** When the submit button is enabled there is an answer to send. *)
Lemma submitEnabled_resolved (s : State) :
  captureInvariant s -> submitEnabled s = true ->
  resolvedAnswer None s <> [].
Proof.
  intros [Ht He] En. unfold submitEnabled in En.
  apply andb_true_iff in En as [_ Hd].
  unfold resolvedAnswer. rewrite answerToSubmit_candidate.
  unfold or_else.
  destruct (finalTranscript s) as [|c r] eqn:Hf.
  - simpl truthy. cbv iota.
    destruct (blank (transcript s)) eqn:Hb.
    + unfold displayedAnswer in Hd.
      destruct (isListening s || truthy (transcript s)).
      * apply trim_blank in Hb. rewrite Hb in Hd. discriminate.
      * now apply truthy_nonempty.
    + intros H. apply trim_blank in H. congruence.
  - simpl truthy. cbv iota.
    rewrite (trimmed_not_blank Ht) by discriminate.
    rewrite Ht. discriminate.
Qed.

(** C2: on every submit the answer text is resolved with the precedence
    (a) the override if provided, else (b) the finalized transcript, else
    (c) the interim transcript, else (d) the typed text, and the result is
    trimmed.  For every submit the session can dispatch (a reachable state
    with the submit button enabled; the button passes no override) the
    resolved answer is what that precedence gives, under either reading of
    "else", and it is in trimmed form; and an override that holds text is
    taken, trimmed, before every other source, in any state. *)
Theorem submitted_answer_follows_precedence (w : Sys) :
  reachable w ->
  submitEnabled (st w) = true ->
  resolvedAnswer None (st w) =
    resolve_spec_provided None (finalTranscript (st w)) (transcript (st w))
                          (textAnswer (st w)) /\
  resolvedAnswer None (st w) =
    resolve_spec_first_text None (finalTranscript (st w)) (transcript (st w))
                            (textAnswer (st w)) /\
  trim (resolvedAnswer None (st w)) = resolvedAnswer None (st w) /\
  forall o, blank o = false ->
    resolvedAnswer (Some o) (st w) = trim o /\
    resolvedAnswer (Some o) (st w) =
      resolve_spec_provided (Some o) (finalTranscript (st w))
                            (transcript (st w)) (textAnswer (st w)) /\
    resolvedAnswer (Some o) (st w) =
      resolve_spec_first_text (Some o) (finalTranscript (st w))
                              (transcript (st w)) (textAnswer (st w)).
Proof.
  intros Hw En.
  destruct (captureInvariant_reachable Hw) as [Ht _].
  unfold submitEnabled in En. apply andb_true_iff in En as [_ Hd].
  unfold resolvedAnswer.
  split; [|split; [|split]].
  - rewrite answerToSubmit_candidate.
    unfold or_else, resolve_spec_provided.
    destruct (finalTranscript (st w)) as [|c r] eqn:Hf.
    + simpl truthy. cbv iota.
      destruct (transcript (st w)) as [|d t] eqn:Htr; [reflexivity|].
      unfold displayedAnswer in Hd. rewrite Htr in Hd.
      simpl truthy in Hd. rewrite orb_true_r in Hd.
      rewrite truthy_trim in Hd. apply negb_true_iff in Hd.
      simpl truthy. cbv iota. now rewrite Hd.
    + simpl truthy. cbv iota.
      now rewrite (trimmed_not_blank Ht) by discriminate.
  - apply answerToSubmit_agrees_with_spec.
    destruct (finalTranscript (st w)) as [|c r] eqn:Hf; [now left|].
    right. apply (trimmed_not_blank Ht). discriminate.
  - unfold answerToSubmit. apply trim_idempotent.
  - intros o Ho.
    assert (Hcode : answerToSubmit (Some o) (finalTranscript (st w))
                      (transcript (st w)) (textAnswer (st w)) = trim o).
    { unfold answerToSubmit, spokenAnswer, or_else.
      rewrite truthy_trim, Ho. simpl. apply trim_idempotent. }
    rewrite Hcode. split; [reflexivity|]. split.
    + reflexivity.
    + unfold resolve_spec_first_text. now rewrite Ho.
Qed.

Lemma submitted_answer_follows_precedence_witness :
  let w := after [ClickMicrophone;
                  RecognitionResult [(js "use a ttl", true)];
                  RecognitionResult [(js " and", false)]]
                 (mount true [sampleQuestion]) in
  resolvedAnswer None (st w) = js "use a ttl" /\
  resolvedAnswer None (st w) =
    resolve_spec_provided None (finalTranscript (st w)) (transcript (st w))
                          (textAnswer (st w)) /\
  resolvedAnswer (Some (js " typed over ")) (st w) = js "typed over".
Proof.
  intros w.
  assert (En : submitEnabled (st w) = true) by (vm_compute; reflexivity).
  destruct (@submitted_answer_follows_precedence w
              (reachable_sample true _) En) as (H1 & _ & _ & Ho).
  assert (Hb : blank (js " typed over ") = false) by reflexivity.
  destruct (Ho _ Hb) as (H2 & _).
  split; [vm_compute; reflexivity|].
  split; [exact H1|].
  rewrite H2. vm_compute. reflexivity.
Defined.

Lemma countAnalyzeAnswer_app (a b : list Effect) :
  countAnalyzeAnswer (a ++ b) = countAnalyzeAnswer a + countAnalyzeAnswer b.
Proof.
  unfold countAnalyzeAnswer. now rewrite filter_app, length_app.
Qed.

(** A click on the enabled submit button, spelled out. *)
Lemma submit_step (w w' : Sys) :
  reachable w -> step ClickSubmit w = Some w' ->
  exists q,
    currentQuestion (st w) = Some q /\
    resolvedAnswer None (st w) <> [] /\
    st w' = setAppState ANALYZING (setIsAnalyzing true (st w)) /\
    inflight w' = [{| p_question := q;
                      p_answer := resolvedAnswer None (st w) |}] /\
    trace w' =
      trace w
        ++ (if isListening (st w) && recognition w
            then [RecognitionStop] else [])
        ++ [AnalyzeAnswer (question q) (resolvedAnswer None (st w))
                          (keywords q)].
Proof.
  intros Hw Hstep.
  pose proof (captureInvariant_reachable Hw) as Hc.
  pose proof (turnInvariant_reachable Hw) as (_ & Hidx & Hfl & _).
  apply step_inv in Hstep.
  destruct Hstep as (En & _ & Hs & Hcalls & Htr).
  simpl in En.
  pose proof (submitEnabled_resolved Hc En) as Hne.
  unfold submitEnabled, footerHasSubmit in En. split_bools.
  destruct (nth_error (questions (st w)) (currentQuestionIndex (st w)))
    as [q|] eqn:Hq; [|apply nth_error_None in Hq; lia].
  exists q. split; [exact Hq|]. split; [exact Hne|].
  assert (Hd : dispatch ClickSubmit w =
               (setAppState ANALYZING (setIsAnalyzing true (st w)),
                (if isListening (st w) && recognition w
                 then [RecognitionStop] else [])
                  ++ [AnalyzeAnswer (question q)
                        (resolvedAnswer None (st w)) (keywords q)],
                inflight w ++ [{| p_question := q;
                                  p_answer := resolvedAnswer None (st w) |}])).
  { simpl. unfold handleSubmitAnswer, currentQuestion. rewrite Hq.
    destruct (resolvedAnswer None (st w)); [congruence | reflexivity]. }
  rewrite Hd in Hs, Hcalls, Htr. cbn [fst snd] in Hs, Hcalls, Htr.
  split; [exact Hs|]. split.
  - rewrite Hcalls.
    match goal with H : isAnalyzing (st w) = false |- _ =>
      rewrite H in Hfl end.
    destruct (inflight w); [reflexivity | discriminate].
  - rewrite Htr.
    assert (Hm : mounted (setAppState ANALYZING
                            (setIsAnalyzing true (st w))) = true)
      by reflexivity.
    rewrite Hm, afterRender_same_deps by reflexivity.
    now rewrite app_nil_r.
Qed.

(** X4: in a reachable session, a click on the enabled submit button always
    has an answer to send: it issues exactly one evaluator call, for the
    question on screen, with a non-empty answer in trimmed form, and that
    call is then the only one in flight. *)
Theorem submit_issues_one_call (w w' : Sys) :
  reachable w -> step ClickSubmit w = Some w' ->
  countAnalyzeAnswer (trace w') = S (countAnalyzeAnswer (trace w)) /\
  exists q,
    currentQuestion (st w) = Some q /\
    inflight w' = [{| p_question := q;
                      p_answer := resolvedAnswer None (st w) |}] /\
    resolvedAnswer None (st w) <> [] /\
    trim (resolvedAnswer None (st w)) = resolvedAnswer None (st w) /\
    isAnalyzing (st w') = true /\ appState (st w') = ANALYZING.
Proof.
  intros Hw Hstep.
  destruct (submit_step Hw Hstep) as (q & Hq & Hne & Hs & Hcalls & Htr).
  split.
  - rewrite Htr, countAnalyzeAnswer_app.
    match goal with |- _ + ?c = _ => assert (Hone : c = 1)
      by (destruct (isListening (st w) && recognition w); reflexivity) end.
    rewrite Hone. lia.
  - exists q. rewrite Hs. repeat split; try assumption.
    unfold resolvedAnswer, answerToSubmit. apply trim_idempotent.
Qed.

Lemma submit_issues_one_call_witness :
  let w := after [TypeText (js " a ")] (mount true [sampleQuestion]) in
  let w' := after [ClickSubmit] w in
  step ClickSubmit w = Some w' /\
  countAnalyzeAnswer (trace w') = S (countAnalyzeAnswer (trace w)).
Proof.
  intros w w'.
  assert (Hstep : step ClickSubmit w = Some w') by (vm_compute; reflexivity).
  split; [exact Hstep|].
  exact (proj1 (@submit_issues_one_call w w' (reachable_sample true _) Hstep)).
Defined.

(** X5: once any speech has been finalized, a submit sends the finalized
    transcript and nothing else: interim words shown after it in the answer
    box, and typed text, are not part of the answer. *)
Theorem submit_sends_finalized_transcript (w w' : Sys) :
  reachable w -> step ClickSubmit w = Some w' ->
  finalTranscript (st w) <> [] ->
  exists q,
    currentQuestion (st w) = Some q /\
    inflight w' = [{| p_question := q;
                      p_answer := finalTranscript (st w) |}].
Proof.
  intros Hw Hstep Hf.
  destruct (submit_step Hw Hstep) as (q & Hq & _ & _ & Hcalls & _).
  destruct (captureInvariant_reachable Hw) as [Ht _].
  exists q. split; [exact Hq|]. rewrite Hcalls.
  unfold resolvedAnswer. rewrite answerToSubmit_candidate.
  unfold or_else. rewrite (proj2 (truthy_nonempty _) Hf).
  now rewrite (trimmed_not_blank Ht Hf), Ht.
Qed.

Lemma submit_sends_finalized_transcript_witness :
  let w := after [ClickMicrophone;
                  RecognitionResult [(js "caching", true)];
                  RecognitionResult [(js " and more", false)]]
                 (mount true [sampleQuestion]) in
  let w' := after [ClickSubmit] w in
  displayedAnswer (st w) = js "caching and more" /\
  inflight w' = [{| p_question := sampleQuestion;
                    p_answer := js "caching" |}].
Proof.
  intros w w'.
  assert (Hstep : step ClickSubmit w = Some w') by (vm_compute; reflexivity).
  assert (Hf : finalTranscript (st w) <> []) by (vm_compute; discriminate).
  split; [vm_compute; reflexivity|].
  destruct (@submit_sends_finalized_transcript w w'
              (reachable_sample true _) Hstep Hf) as (q & Hq & Hin).
  assert (Hsame : q = sampleQuestion)
    by (vm_compute in Hq; injection Hq as <-; reflexivity).
  rewrite Hin, Hsame. vm_compute. reflexivity.
Defined.

Lemma step_enabled (ev : Event) (w : Sys) :
  enabled ev w = true -> exists w', step ev w = Some w'.
Proof.
  intros En. unfold step. rewrite En.
  destruct (dispatch ev w) as [[s' e] calls]. eexists. reflexivity.
Qed.

Lemma blank_false_trim (a : jsstring) :
  blank a = false -> trim a <> [] /\ blank (trim a) = false.
Proof.
  intros Hb.
  assert (Hne : trim a <> []) by (intros H; apply trim_blank in H; congruence).
  split; [exact Hne|].
  apply trimmed_not_blank; [apply trim_idempotent | exact Hne].
Qed.

(** X6: typing a text that is not blank and then pressing submit sends
    exactly that text, trimmed, for the question on screen, whatever was
    captured or typed before. *)
Theorem type_then_submit (w : Sys) (v : jsstring) :
  reachable w ->
  textareaEnabled (st w) = true ->
  blank v = false ->
  exists w1 w2 q,
    step (TypeText v) w = Some w1 /\
    displayedAnswer (st w1) = v /\
    step ClickSubmit w1 = Some w2 /\
    currentQuestion (st w) = Some q /\
    inflight w2 = [{| p_question := q; p_answer := trim v |}].
Proof.
  intros Hw En Hv.
  destruct (@step_enabled (TypeText v) w En) as [w1 Sa].
  pose proof (reachable_step _ Hw Sa) as Hw1.
  apply step_inv in Sa as Hi. destruct Hi as (_ & _ & Hs1 & _).
  unfold textareaEnabled in En. split_bools.
  simpl in Hs1. unfold onChange in Hs1.
  match goal with H : isListening (st w) = false |- _ =>
    rewrite H in Hs1; rename H into Hl end.
  simpl in Hs1.
  assert (Hen : enabled ClickSubmit w1 = true).
  { simpl. unfold submitEnabled, footerHasSubmit, displayedAnswer.
    rewrite Hs1. simpl. rewrite Hl. simpl.
    rewrite truthy_trim, Hv.
    unfold rendered, mounted, isInterviewOver, hasFeedback in *. simpl.
    match goal with
    | Hr : _ && _ = true, Hf : match feedback (st w) with _ => _ end = false
      |- _ => rewrite Hr, Hf
    end.
    match goal with Ha : isAnalyzing (st w) = false |- _ => rewrite Ha end.
    reflexivity. }
  destruct (step_enabled _ _ Hen) as [w2 Sb].
  destruct (submit_step Hw1 Sb) as (q & Hq & _ & _ & Hcalls & _).
  exists w1, w2, q. split; [exact Sa|]. split.
  { unfold displayedAnswer. rewrite Hs1. simpl. now rewrite Hl. }
  split; [exact Sb|]. split.
  { rewrite Hs1 in Hq. exact Hq. }
  rewrite Hcalls, Hs1. unfold resolvedAnswer. simpl.
  now rewrite answerToSubmit_candidate.
Qed.

Lemma type_then_submit_witness :
  exists w1 w2 q,
    step (TypeText (js " use a ttl "))
         (after [ClickMicrophone; RecognitionResult [(js "old", true)];
                 RecognitionEnd]
                (mount true [sampleQuestion])) = Some w1 /\
    displayedAnswer (st w1) = js " use a ttl " /\
    step ClickSubmit w1 = Some w2 /\
    currentQuestion
      (st (after [ClickMicrophone; RecognitionResult [(js "old", true)];
                  RecognitionEnd]
                 (mount true [sampleQuestion]))) = Some q /\
    inflight w2 = [{| p_question := q; p_answer := trim (js " use a ttl ") |}].
Proof.
  apply (@type_then_submit _ (js " use a ttl ") (reachable_sample true _));
    reflexivity.
Defined.

(** X7: with a capture device, pressing the microphone while capture is
    off, receiving one finalized chunk that is not blank, and pressing
    submit sends that chunk, trimmed, for the question on screen; text
    typed before is gone. *)
Theorem capture_then_submit (w : Sys) (c : jsstring) :
  reachable w ->
  recognition w = true ->
  footerHasSubmit (st w) = true ->
  isListening (st w) = false ->
  blank c = false ->
  exists w1 w2 w3 q,
    step ClickMicrophone w = Some w1 /\
    step (RecognitionResult [(c, true)]) w1 = Some w2 /\
    displayedAnswer (st w2) = c /\
    textAnswer (st w2) = [] /\
    step ClickSubmit w2 = Some w3 /\
    currentQuestion (st w) = Some q /\
    inflight w3 = [{| p_question := q; p_answer := trim c |}].
Proof.
  intros Hw Hrec Hfoot Hl Hc.
  destruct (@blank_false_trim c Hc) as [Hne Hnb].
  assert (Hcne : truthy c = true) by (destruct c; [discriminate | reflexivity]).
  (* the microphone *)
  destruct (@step_enabled ClickMicrophone w Hfoot) as [w1 Sa].
  pose proof (reachable_step _ Hw Sa) as Hw1.
  apply step_inv in Sa as Hi. destruct Hi as (_ & Hr1 & Hs1 & _).
  simpl in Hs1. unfold handleToggleListening in Hs1.
  rewrite Hl, Hrec in Hs1. simpl in Hs1.
  (* the recognition event *)
  assert (Hm : mounted (st w) = true).
  { unfold footerHasSubmit, rendered in Hfoot. split_bools. assumption. }
  assert (En2 : enabled (RecognitionResult [(c, true)]) w1 = true).
  { simpl. rewrite Hr1, Hrec, Hs1. unfold mounted in *. simpl.
    now rewrite Hm. }
  destruct (step_enabled _ _ En2) as [w2 Sb].
  pose proof (reachable_step _ Hw1 Sb) as Hw2.
  apply step_inv in Sb as Hi. destruct Hi as (_ & _ & Hs2 & _).
  simpl in Hs2. unfold onresult in Hs2. simpl in Hs2.
  rewrite Hcne in Hs2. rewrite Hs1 in Hs2. simpl in Hs2.
  rewrite app_nil_r in Hs2.
  (* the submit *)
  assert (En3 : enabled ClickSubmit w2 = true).
  { simpl. unfold submitEnabled, footerHasSubmit, displayedAnswer in *.
    rewrite Hs2. simpl. rewrite truthy_trim, Hc.
    unfold rendered, mounted, isInterviewOver, hasFeedback in *. simpl.
    now rewrite Hfoot. }
  destruct (step_enabled _ _ En3) as [w3 Sc].
  destruct (submit_step Hw2 Sc) as (q & Hq & _ & _ & Hcalls & _).
  exists w1, w2, w3, q.
  split; [exact Sa|]. split; [exact Sb|].
  split; [now rewrite Hs2|]. split; [now rewrite Hs2|].
  split; [exact Sc|]. split.
  { rewrite Hs2 in Hq. exact Hq. }
  rewrite Hcalls, Hs2. unfold resolvedAnswer. simpl.
  rewrite answerToSubmit_candidate.
  change (trim (32%N :: c)) with (trim c).
  unfold or_else. rewrite (proj2 (truthy_nonempty _) Hne), Hnb.
  now rewrite trim_idempotent.
Qed.

Lemma capture_then_submit_witness :
  exists w1 w2 w3 q,
    step ClickMicrophone
         (after [TypeText (js "typed first")] (mount true [sampleQuestion]))
      = Some w1 /\
    step (RecognitionResult [(js "I would use a ttl. ", true)]) w1
      = Some w2 /\
    displayedAnswer (st w2) = js "I would use a ttl. " /\
    textAnswer (st w2) = [] /\
    step ClickSubmit w2 = Some w3 /\
    currentQuestion
      (st (after [TypeText (js "typed first")]
                 (mount true [sampleQuestion]))) = Some q /\
    inflight w3 = [{| p_question := q;
                      p_answer := trim (js "I would use a ttl. ") |}].
Proof.
  apply (@capture_then_submit _ (js "I would use a ttl. ")
           (reachable_sample true _)); reflexivity.
Defined.

(** ** The recorded results *)

Lemma firstn_snoc (A : Type) (l : list A) (n : nat) (x : A) :
  nth_error l n = Some x -> firstn (n + 1) l = firstn n l ++ [x].
Proof.
  revert n. induction l as [|a l IH]; intros [|n] H; simpl in *;
    try discriminate.
  - now injection H as ->.
  - now rewrite (IH n H).
Qed.

Lemma answersInvariant_step (ev : Event) (w w' : Sys) :
  turnInvariant w -> answersInvariant w -> step ev w = Some w' ->
  answersInvariant w'.
Proof.
  intros (_ & _ & Hlen & Hst) (Hmap & Hres & Hfl) Hstep.
  apply step_inv in Hstep. destruct Hstep as (En & _ & Hs & Hc & _).
  unfold answersInvariant. rewrite Hs, Hc. clear Hs Hc w'.
  unfold currentQuestion in *.
  destruct ev; simpl in En |- *.
  - (* ClickSubmit *)
    unfold handleSubmitAnswer, currentQuestion.
    destruct (resolvedAnswer None (st w)) as [|c r] eqn:Ha; simpl.
    + rewrite app_nil_r. repeat split; assumption.
    + destruct (nth_error (questions (st w)) (currentQuestionIndex (st w)))
        as [q|] eqn:Hq; simpl.
      * repeat split; try assumption.
        rewrite Hq.
        apply Forall_app. split; [exact Hfl|].
        constructor; [|constructor]. simpl.
        split; [reflexivity|]. rewrite <- Ha. split.
        -- rewrite Ha. discriminate.
        -- unfold resolvedAnswer, answerToSubmit. apply trim_idempotent.
      * rewrite app_nil_r, Hq. repeat split; assumption.
  - (* ClickMicrophone *)
    unfold handleToggleListening.
    destruct (isListening (st w)), (recognition w); simpl;
      repeat split; assumption.
  - (* ClickNext *)
    unfold footerHasNext in En. split_bools.
    match goal with H : isAnalyzing (st w) = false |- _ =>
      rewrite H in Hlen end.
    destruct (inflight w); [|discriminate].
    unfold handleNextQuestion.
    destruct (hasNextQuestion (st w)); simpl;
      repeat split; solve [assumption | constructor].
  - (* ClickToggleSpokenFeedback *)
    unfold handleToggleSpokenFeedback.
    destruct (speechState (st w)); simpl; try (repeat split; assumption);
      destruct (feedback (st w)) as [f|]; simpl;
      try (repeat split; assumption);
      destruct (truthy (spokenFeedback f)); simpl; repeat split; assumption.
  - (* TypeText *)
    unfold onChange.
    destruct (isListening (st w)), (recognition w); simpl;
      repeat split; assumption.
  - (* RecognitionResult *)
    unfold onresult. destruct (collectChunks rs [] []) as [final interim].
    destruct (truthy final); simpl; repeat split; assumption.
  - repeat split; assumption.
  - destruct u; simpl; repeat split; assumption.
  - (* Fulfilled *)
    split_bools.
    destruct (inflight w) as [|p rest]; [discriminate|].
    simpl in Hlen. destruct (isAnalyzing (st w)) eqn:Hi; [|discriminate].
    assert (Hrest : rest = []) by (destruct rest; [reflexivity|discriminate]).
    subst rest.
    assert (Hn : List.length (results (st w)) = currentQuestionIndex (st w))
      by (destruct (appState (st w)); intuition congruence).
    inversion Hfl as [|? ? [Hq Hgood] _]; subst.
    simpl. rewrite map_app, length_app. simpl.
    split; [|split; [|constructor]].
    + rewrite Hmap, Hn. symmetry. now apply firstn_snoc.
    + apply Forall_app. split; [exact Hres|].
      constructor; [exact Hgood | constructor].
  - (* Rejected *)
    simpl. repeat split; try assumption.
    destruct (inflight w) as [|p rest]; [constructor|].
    inversion Hfl; subst. assumption.
Qed.

Lemma answersInvariant_reachable (w : Sys) :
  reachable w -> answersInvariant w.
Proof.
  induction 1 as [rec qs Hqs | ev w w' Hw IH Hstep].
  - repeat split; constructor.
  - exact (@answersInvariant_step ev w w' (turnInvariant_reachable Hw)
             IH Hstep).
Qed.

(** X8: in every reachable state the recorded results follow the question
    list: the i-th result is for the i-th question, and its answer is a
    non-empty string without surrounding whitespace. *)
Theorem results_follow_questions (w : Sys) (i : nat) (r : InterviewResult) :
  reachable w ->
  nth_error (results (st w)) i = Some r ->
  nth_error (questions (st w)) i = Some (res_question r) /\
  res_answer r <> [] /\
  trim (res_answer r) = res_answer r.
Proof.
  intros Hw Hr.
  destruct (answersInvariant_reachable Hw) as (Hmap & Hres & _).
  split.
  - assert (Hi : i < List.length (results (st w)))
      by (apply nth_error_Some; congruence).
    apply (map_nth_error res_question) in Hr.
    rewrite Hmap in Hr. rewrite nth_error_firstn in Hr.
    destruct (Nat.ltb_spec i (List.length (results (st w)))); [exact Hr|lia].
  - apply nth_error_In in Hr.
    rewrite Forall_forall in Hres. exact (Hres r Hr).
Qed.

Lemma results_follow_questions_witness :
  let w := after [TypeText (js " a "); ClickSubmit;
                  Fulfilled sampleFeedback]
                 (mount true [sampleQuestion; sampleQuestion]) in
  let r := {| res_question := sampleQuestion; res_answer := js "a";
              res_feedback := sampleFeedback |} in
  nth_error (results (st w)) 0 = Some r /\
  nth_error (questions (st w)) 0 = Some (res_question r).
Proof.
  intros w r.
  assert (Hw : reachable w)
    by (apply reachable_after, reachable_mount; discriminate).
  assert (Hr : nth_error (results (st w)) 0 = Some r) by reflexivity.
  split; [exact Hr|].
  exact (proj1 (@results_follow_questions w 0 r Hw Hr)).
Defined.

(** X9: when the session is complete, the results handed to the host are
    one per question, in question order. *)
Theorem complete_results_cover_questions (w : Sys) :
  reachable w ->
  appState (st w) = COMPLETE ->
  map res_question (appResults (st w)) = questions (st w) /\
  List.length (appResults (st w)) = List.length (questions (st w)).
Proof.
  intros Hw Hc.
  destruct (turnInvariant_reachable Hw) as (Happ & _ & _ & Hst).
  rewrite Hc in Hst. destruct Hst as (_ & _ & Hlen & Hlast).
  destruct (answersInvariant_reachable Hw) as (Hmap & _).
  rewrite Happ. split; [|congruence].
  rewrite Hmap, Hlen, Hlast. apply firstn_all.
Qed.

Lemma complete_results_cover_questions_witness :
  let w := after [TypeText (js "a"); ClickSubmit; Fulfilled sampleFeedback;
                  ClickNext; TypeText (js "b"); ClickSubmit; Rejected;
                  ClickSubmit; Fulfilled sampleFeedback; ClickNext]
                 (mount true [sampleQuestion; sampleQuestion]) in
  appState (st w) = COMPLETE /\
  map res_question (appResults (st w)) = [sampleQuestion; sampleQuestion].
Proof.
  intros w.
  assert (Hw : reachable w)
    by (apply reachable_after, reachable_mount; discriminate).
  assert (Hc : appState (st w) = COMPLETE) by reflexivity.
  split; [exact Hc|].
  exact (proj1 (@complete_results_cover_questions w Hw Hc)).
Defined.

(** ** Every evaluator call is accounted for *)

Lemma quiet_app (a b : list Effect) : quiet (a ++ b) = quiet a && quiet b.
Proof. apply forallb_app. Qed.

Lemma quiet_counts (t : list Effect) :
  quiet t = true ->
  countAnalyzeAnswer t = 0 /\ countAlerts msgAnalysisError t = 0.
Proof.
  unfold quiet, countAnalyzeAnswer, countAlerts.
  induction t as [|e t IH]; simpl; [split; reflexivity|].
  intros H. apply andb_true_iff in H as [He Ht].
  destruct (IH Ht) as [IH1 IH2].
  destruct e; simpl; try discriminate; try (split; assumption).
  apply negb_true_iff in He. rewrite He. split; assumption.
Qed.

Lemma questionSpeech_quiet (s : State) : quiet (questionSpeech s) = true.
Proof.
  unfold questionSpeech.
  destruct (currentQuestion s); [destruct (hasFeedback s)|]; reflexivity.
Qed.

Lemma afterRender_quiet (rec : bool) (prev next : State) :
  quiet (afterRender rec prev next) = true.
Proof.
  unfold afterRender. rewrite !quiet_app.
  destruct (recognitionDepsChanged prev next),
    (speechDepsChanged prev next), rec;
    rewrite ?questionSpeech_quiet; reflexivity.
Qed.

Lemma recognitionCleanup_quiet (rec : bool) :
  quiet (recognitionCleanup rec) = true.
Proof. destruct rec; reflexivity. Qed.

(** The effects that follow the handler of a step. *)
Lemma step_trace (ev : Event) (w w' : Sys) :
  step ev w = Some w' ->
  exists after_render,
    quiet after_render = true /\
    trace w' = trace w ++ snd (fst (dispatch ev w)) ++ after_render.
Proof.
  intros Hstep. apply step_inv in Hstep.
  destruct Hstep as (_ & _ & _ & _ & Htr).
  eexists. split; [|exact Htr].
  destruct (mounted (fst (fst (dispatch ev w))));
    [apply afterRender_quiet | apply recognitionCleanup_quiet].
Qed.

(** Handlers other than submit and the rejection of a call emit nothing
    that counts. *)
Lemma dispatch_quiet (ev : Event) (w : Sys) :
  ev <> ClickSubmit -> ev <> Rejected ->
  quiet (snd (fst (dispatch ev w))) = true.
Proof.
  intros H1 H2. destruct ev; try congruence; simpl.
  - unfold handleToggleListening.
    destruct (isListening (st w)), (recognition w); reflexivity.
  - unfold handleNextQuestion.
    destruct (hasNextQuestion (st w)); reflexivity.
  - unfold handleToggleSpokenFeedback.
    destruct (speechState (st w)); try reflexivity;
      destruct (feedback (st w)) as [f|]; try reflexivity;
      destruct (truthy (spokenFeedback f)); reflexivity.
  - unfold onChange.
    destruct (isListening (st w)), (recognition w); reflexivity.
  - reflexivity.
  - reflexivity.
  - destruct u; reflexivity.
  - destruct (inflight w) as [|p rest]; [reflexivity|]. simpl.
    destruct (truthy (spokenFeedback generatedFeedback)); reflexivity.
Qed.

Lemma Event_eq_ClickSubmit_or (ev : Event) :
  ev = ClickSubmit \/ ev <> ClickSubmit.
Proof. destruct ev; (now left) || (right; discriminate). Qed.

Lemma Event_eq_Rejected_or (ev : Event) :
  ev = Rejected \/ ev <> Rejected.
Proof. destruct ev; (now left) || (right; discriminate). Qed.

(** Those handlers also keep the number of results plus calls in flight:
    the fulfilment of a call turns the call into a result. *)
Lemma dispatch_balance (ev : Event) (w : Sys) :
  enabled ev w = true -> ev <> ClickSubmit -> ev <> Rejected ->
  List.length (results (fst (fst (dispatch ev w))))
    + List.length (snd (dispatch ev w))
  = List.length (results (st w)) + List.length (inflight w).
Proof.
  intros En H1 H2. destruct ev; try congruence; simpl.
  - unfold handleToggleListening.
    destruct (isListening (st w)), (recognition w); reflexivity.
  - unfold handleNextQuestion.
    destruct (hasNextQuestion (st w)); reflexivity.
  - unfold handleToggleSpokenFeedback.
    destruct (speechState (st w)); try reflexivity;
      destruct (feedback (st w)) as [f|]; try reflexivity;
      destruct (truthy (spokenFeedback f)); reflexivity.
  - unfold onChange.
    destruct (isListening (st w)), (recognition w); reflexivity.
  - unfold onresult. destruct (collectChunks rs [] []) as [final interim].
    destruct (truthy final); reflexivity.
  - reflexivity.
  - destruct u; reflexivity.
  - simpl in En. split_bools.
    destruct (inflight w) as [|p rest]; [discriminate|]. simpl.
    rewrite length_app. simpl. lia.
Qed.

Lemma accounted_step (ev : Event) (w w' : Sys) :
  reachable w -> accounted w -> step ev w = Some w' -> accounted w'.
Proof.
  intros Hw Hacc Hstep. unfold accounted in *.
  destruct (Event_eq_ClickSubmit_or ev) as [-> | Hns].
  - destruct (submit_step Hw Hstep) as (q & _ & _ & Hs & Hcalls & Htr).
    pose proof (turnInvariant_reachable Hw) as (_ & _ & Hfl & _).
    apply step_inv in Hstep. destruct Hstep as (En & _).
    simpl in En. unfold submitEnabled, footerHasSubmit in En. split_bools.
    match goal with H : isAnalyzing (st w) = false |- _ =>
      rewrite H in Hfl end.
    rewrite Htr, Hs, Hcalls, !countAnalyzeAnswer_app, !countAlerts_app.
    simpl results. rewrite Hacc, Hfl.
    destruct (isListening (st w) && recognition w);
      unfold countAnalyzeAnswer, countAlerts; simpl; lia.
  - destruct (@step_trace ev w w' Hstep) as (ar & Hq & Htr).
    destruct (@quiet_counts ar Hq) as [Ha1 Ha2].
    apply step_inv in Hstep. destruct Hstep as (En & _ & Hs & Hcalls & _).
    rewrite Htr, Hs, Hcalls, !countAnalyzeAnswer_app, !countAlerts_app.
    rewrite Ha1, Ha2, Hacc. clear Htr Hs Hcalls.
    destruct (Event_eq_Rejected_or ev) as [-> | Hnr].
    + simpl in En |- *. split_bools.
      destruct (inflight w) as [|p rest]; [discriminate|].
      change (countAnalyzeAnswer [ConsoleError; Alert msgAnalysisError])
        with 0.
      change (countAlerts msgAnalysisError
                [ConsoleError; Alert msgAnalysisError]) with 1.
      simpl. lia.
    + destruct (@quiet_counts _ (@dispatch_quiet ev w Hns Hnr)) as [-> ->].
      pose proof (@dispatch_balance ev w En Hns Hnr). lia.
Qed.

Lemma accounted_reachable (w : Sys) : reachable w -> accounted w.
Proof.
  induction 1 as [rec qs Hqs | ev w w' Hw IH Hstep].
  - unfold accounted, mount, onMount. cbn [trace st inflight].
    destruct (@quiet_counts (questionSpeech (initialState qs)
                               ++ recognitionEffect rec)) as [-> ->].
    + rewrite quiet_app, questionSpeech_quiet. destruct rec; reflexivity.
    + reflexivity.
  - exact (@accounted_step ev w w' Hw IH Hstep).
Qed.

(** X10: in every reachable state, each evaluator call issued so far is
    accounted for exactly once: the number of calls equals the number of
    recorded results, plus the number of analysis-error alerts shown, plus
    the calls still in flight. *)
Theorem evaluator_calls_accounted (w : Sys) :
  reachable w ->
  countAnalyzeAnswer (trace w)
    = List.length (results (st w))
      + countAlerts msgAnalysisError (trace w)
      + List.length (inflight w) /\
  List.length (results (st w)) <= countAnalyzeAnswer (trace w).
Proof.
  intros Hw. pose proof (accounted_reachable Hw) as H.
  unfold accounted in H. split; [exact H | lia].
Qed.

Lemma evaluator_calls_accounted_witness :
  let w := after [TypeText (js "a"); ClickSubmit; Rejected; ClickSubmit;
                  Fulfilled sampleFeedback; ClickNext; TypeText (js "b");
                  ClickSubmit]
                 (mount true [sampleQuestion; sampleQuestion]) in
  countAnalyzeAnswer (trace w) = 3 /\
  List.length (results (st w)) = 1 /\
  countAlerts msgAnalysisError (trace w) = 1 /\
  List.length (inflight w) = 1.
Proof.
  intros w.
  assert (Hw : reachable w)
    by (apply reachable_after, reachable_mount; discriminate).
  destruct (@evaluator_calls_accounted w Hw) as [Heq _].
  assert (H2 : List.length (results (st w)) = 1) by reflexivity.
  assert (H3 : countAlerts msgAnalysisError (trace w) = 1)
    by (vm_compute; reflexivity).
  assert (H4 : List.length (inflight w) = 1) by reflexivity.
  rewrite H2, H3, H4 in Heq.
  split; [exact Heq | split; [exact H2 | split; [exact H3 | exact H4]]].
Defined.

(** ** Playback *)

Lemma preempted_weaken (b : bool) (t : list Effect) :
  preempted false t = true -> preempted b t = true.
Proof.
  destruct t as [|e t]; simpl; [reflexivity|].
  destruct e; simpl; try (intros H; exact H). discriminate.
Qed.

Lemma preempted_app (b : bool) (a c : list Effect) :
  preempted b a = true -> preempted false c = true ->
  preempted b (a ++ c) = true.
Proof.
  revert b. induction a as [|e a IH]; intros b Ha Hc; simpl.
  - now apply preempted_weaken.
  - destruct e; simpl in *; try (now apply IH).
    apply andb_true_iff in Ha as [-> Ha]. simpl. now apply IH.
Qed.

Lemma questionSpeech_preempts (s : State) :
  speechPreempts (questionSpeech s) = true.
Proof.
  unfold questionSpeech.
  destruct (currentQuestion s); [destruct (hasFeedback s)|]; reflexivity.
Qed.

Lemma afterRender_preempts (rec : bool) (prev next : State) :
  speechPreempts (afterRender rec prev next) = true.
Proof.
  unfold afterRender, speechPreempts.
  repeat apply preempted_app;
    destruct (recognitionDepsChanged prev next),
      (speechDepsChanged prev next), rec;
    try reflexivity; apply questionSpeech_preempts.
Qed.

Lemma dispatch_preempts (ev : Event) (w : Sys) :
  speechPreempts (snd (fst (dispatch ev w))) = true.
Proof.
  destruct ev; simpl.
  - unfold handleSubmitAnswer.
    destruct (negb (truthy (resolvedAnswer None (st w))));
      [|destruct (currentQuestion (st w))];
      destruct (isListening (st w) && recognition w); reflexivity.
  - unfold handleToggleListening.
    destruct (isListening (st w)), (recognition w); reflexivity.
  - unfold handleNextQuestion.
    destruct (hasNextQuestion (st w)); reflexivity.
  - unfold handleToggleSpokenFeedback.
    destruct (speechState (st w)); try reflexivity;
      destruct (feedback (st w)) as [f|]; try reflexivity;
      destruct (truthy (spokenFeedback f)); reflexivity.
  - unfold onChange.
    destruct (isListening (st w)), (recognition w); reflexivity.
  - reflexivity.
  - reflexivity.
  - destruct u; reflexivity.
  - destruct (inflight w) as [|p rest]; [reflexivity|]. simpl.
    destruct (truthy (spokenFeedback generatedFeedback)); reflexivity.
  - reflexivity.
Qed.

(** X11: the session never starts an utterance on top of another one: in
    the effects of every reachable session, each
    [window.speechSynthesis.speak] comes right after a
    [window.speechSynthesis.cancel]. *)
Theorem speech_always_preempts (w : Sys) :
  reachable w -> speechPreempts (trace w) = true.
Proof.
  induction 1 as [rec qs Hqs | ev w w' Hw IH Hstep].
  - unfold mount, onMount, speechPreempts. cbn [trace].
    apply preempted_app; [apply questionSpeech_preempts|].
    destruct rec; reflexivity.
  - apply step_inv in Hstep. destruct Hstep as (_ & _ & _ & _ & ->).
    unfold speechPreempts in *.
    apply preempted_app; [exact IH|].
    apply preempted_app; [apply dispatch_preempts|].
    destruct (mounted (fst (fst (dispatch ev w)))).
    + apply afterRender_preempts.
    + destruct (recognition w); reflexivity.
Qed.

Lemma speech_always_preempts_witness :
  let w := after [TypeText (js "a"); ClickSubmit; Fulfilled sampleFeedback;
                  Utterance onstart; Utterance onend_utterance;
                  ClickToggleSpokenFeedback; ClickNext]
                 (mount true [sampleQuestion; sampleQuestion]) in
  List.length (filter startsDevice (trace w)) = 4 /\
  speechPreempts (trace w) = true.
Proof.
  intros w.
  split; [vm_compute; reflexivity|].
  apply (@speech_always_preempts w).
  apply reachable_after, reachable_mount. discriminate.
Defined.

(** X12: pausing and resuming spoken feedback is a round trip.  With the
    feedback card on screen and the utterance playing, a toggle, the
    device's pause notification, a second toggle and the device's resume
    notification bring the session back to the same state; the only
    commands sent are one pause and one resume, so playback is not
    restarted. *)
Theorem pause_resume_round_trip (w : Sys) :
  rendered (st w) = true ->
  hasFeedback (st w) = true ->
  speechState (st w) = playing ->
  exists w1 w2,
    run [ClickToggleSpokenFeedback; Utterance onpause] w = Some w1 /\
    speechState (st w1) = paused /\
    run [ClickToggleSpokenFeedback; Utterance onresume] w1 = Some w2 /\
    st w2 = st w /\
    inflight w2 = inflight w /\
    trace w2 = trace w ++ [SynthPause; SynthResume].
Proof.
  intros Hr Hf Hp.
  assert (Hm : mounted (st w) = true)
    by (unfold rendered in Hr; now apply andb_true_iff in Hr).
  destruct w as [rec s calls tr]. simpl in *.
  unfold run, step. simpl enabled. cbn [st].
  rewrite Hr, Hf. simpl.
  unfold handleToggleSpokenFeedback. rewrite Hp. simpl.
  rewrite Hm. cbn [st recognition inflight trace].
  rewrite afterRender_same_deps by reflexivity.
  unfold mounted in *. simpl. rewrite Hm.
  rewrite afterRender_same_deps by reflexivity.
  eexists. eexists. split; [reflexivity|]. split; [reflexivity|].
  simpl. unfold rendered, mounted, isInterviewOver, hasFeedback in *.
  simpl. rewrite Hr, Hf. simpl. rewrite Hm.
  rewrite !afterRender_same_deps by reflexivity.
  split; [reflexivity|]. simpl.
  split; [destruct s; simpl in *; now subst|].
  split; [reflexivity|].
  now rewrite !app_nil_r, <- app_assoc.
Qed.

Lemma pause_resume_round_trip_witness :
  let w := after [TypeText (js "a"); ClickSubmit; Fulfilled sampleFeedback;
                  Utterance onstart]
                 (mount true [sampleQuestion]) in
  exists w1 w2,
    run [ClickToggleSpokenFeedback; Utterance onpause] w = Some w1 /\
    speechState (st w1) = paused /\
    run [ClickToggleSpokenFeedback; Utterance onresume] w1 = Some w2 /\
    st w2 = st w /\
    inflight w2 = inflight w /\
    trace w2 = trace w ++ [SynthPause; SynthResume].
Proof.
  intros w. apply (@pause_resume_round_trip w); reflexivity.
Defined.

(** ** Finishing and advancing *)

Lemma unmounted_step_none (ev : Event) (w : Sys) :
  mounted (st w) = false -> step ev w = None.
Proof.
  intros Hm. unfold step.
  assert (En : enabled ev w = false).
  { destruct ev; simpl;
      unfold submitEnabled, footerHasSubmit, footerHasNext, textareaEnabled,
        rendered; rewrite Hm; reflexivity. }
  now rewrite En.
Qed.

(** X13: finishing the last question sets [COMPLETE], and the only commands
    it sends are the cancellation of playback and, with a capture device,
    the stop of the recognizer: nothing is spoken and capture is not
    started.  After it no event of the screen is accepted any more. *)
Theorem finish_is_quiet_and_final (w w' : Sys) :
  step ClickNext w = Some w' ->
  hasNextQuestion (st w) = false ->
  appState (st w') = COMPLETE /\
  trace w' = trace w ++ SynthCancel :: recognitionCleanup (recognition w) /\
  filter startsDevice (SynthCancel :: recognitionCleanup (recognition w)) = [] /\
  forall ev, step ev w' = None.
Proof.
  intros Hstep Hn. apply step_inv in Hstep.
  destruct Hstep as (_ & _ & Hs & _ & Htr).
  simpl in Hs, Htr. unfold handleNextQuestion in Hs, Htr.
  rewrite Hn in Hs, Htr. simpl in Hs, Htr.
  split; [now rewrite Hs|]. split; [exact Htr|].
  split; [destruct (recognition w); reflexivity|].
  intros ev. apply unmounted_step_none. now rewrite Hs.
Qed.

Lemma finish_is_quiet_and_final_witness :
  let w := after [TypeText (js "a"); ClickSubmit; Fulfilled sampleFeedback]
                 (mount true [sampleQuestion]) in
  let w' := after [ClickNext] w in
  appState (st w') = COMPLETE /\
  trace w' = trace w ++ [SynthCancel; SynthCancel; RecognitionStop] /\
  step (TypeText (js "more")) w' = None.
Proof.
  intros w w'.
  assert (Hstep : step ClickNext w = Some w') by (vm_compute; reflexivity).
  assert (Hn : hasNextQuestion (st w) = false) by reflexivity.
  destruct (@finish_is_quiet_and_final w w' Hstep Hn) as (H1 & H2 & _ & H4).
  split; [exact H1 | split; [exact H2 | exact (H4 _)]].
Defined.

(** X14: advancing to a next question announces it: after the handler's
    cancellation (and, with a capture device, the effect cleanup) the
    screen speaks "Next question, from <persona>. <question>" for the
    question at the new index. *)
Theorem next_question_announced (w w' : Sys) :
  step ClickNext w = Some w' ->
  hasNextQuestion (st w) = true ->
  exists q,
    nth_error (questions (st w)) (S (currentQuestionIndex (st w))) = Some q /\
    currentQuestion (st w') = Some q /\
    trace w' =
      trace w ++ [SynthCancel]
        ++ recognitionCleanup (recognition w)
        ++ [SynthCancel; SynthSpeak (announcement q)]
        ++ recognitionEffect (recognition w).
Proof.
  intros Hstep Hn. apply step_inv in Hstep.
  destruct Hstep as (_ & _ & Hs & _ & Htr).
  simpl in Hs, Htr. unfold handleNextQuestion in Hs, Htr.
  rewrite Hn in Hs, Htr. cbn [fst snd] in Hs, Htr.
  apply hasNextQuestion_true in Hn.
  destruct (nth_error (questions (st w)) (S (currentQuestionIndex (st w))))
    as [q|] eqn:Hq; [|apply nth_error_None in Hq; lia].
  exists q. split; [reflexivity|].
  assert (Hcur : currentQuestion (st w') = Some q).
  { rewrite Hs. unfold currentQuestion. simpl.
    now rewrite Nat.add_1_r. }
  split; [exact Hcur|].
  rewrite <- Hs in Htr. rewrite Htr.
  assert (Hm : mounted (st w') = true) by now rewrite Hs.
  rewrite Hm. unfold afterRender.
  assert (Hidx : (currentQuestionIndex (st w)
                  =? currentQuestionIndex (st w')) = false).
  { rewrite Hs. simpl. apply Nat.eqb_neq. lia. }
  unfold recognitionDepsChanged, submitCallbackChanged, speechDepsChanged.
  rewrite Hidx. simpl negb. rewrite !orb_true_r. simpl orb.
  unfold questionSpeech. rewrite Hcur.
  assert (Hf : hasFeedback (st w') = false) by now rewrite Hs.
  rewrite Hf. reflexivity.
Qed.

Lemma next_question_announced_witness :
  let q2 := {| question := js "And eviction?"; persona := js "CTO";
               keywords := [] |} in
  let w := after [TypeText (js "a"); ClickSubmit; Fulfilled sampleFeedback]
                 (mount false [sampleQuestion; q2]) in
  let w' := after [ClickNext] w in
  currentQuestion (st w') = Some q2 /\
  trace w' =
    trace w ++ [SynthCancel; SynthCancel;
                SynthSpeak (js "Next question, from CTO. And eviction?");
                Alert msgUnsupported].
Proof.
  intros q2 w w'.
  assert (Hstep : step ClickNext w = Some w') by (vm_compute; reflexivity).
  assert (Hn : hasNextQuestion (st w) = true) by reflexivity.
  destruct (@next_question_announced w w' Hstep Hn) as (q & Hq & Hc & Htr).
  assert (Hsame : q = q2)
    by (vm_compute in Hq; injection Hq as <-; reflexivity).
  subst q. split; [exact Hc | exact Htr].
Defined.

(** ** The recognition effect is re-run *)

Lemma recognitionDepsChanged_cases (prev next : State) :
  isListening prev <> isListening next \/
  transcript prev <> transcript next \/
  textAnswer prev <> textAnswer next ->
  recognitionDepsChanged prev next = true.
Proof.
  unfold recognitionDepsChanged, submitCallbackChanged.
  intros [H | [H | H]].
  - assert (E : Bool.eqb (isListening prev) (isListening next) = false)
      by (destruct (isListening prev), (isListening next); simpl; congruence).
    rewrite E. simpl. apply orb_true_r.
  - rewrite (jsstring_eqb_neq H). simpl. rewrite !orb_true_r. reflexivity.
  - rewrite (jsstring_eqb_neq H). simpl. rewrite !orb_true_r. reflexivity.
Qed.

(** X15: with a capture device, pressing the microphone while capture is
    off starts the recognizer and sets [isListening]; the render that
    follows re-runs the recognition effect, because [handleSubmitAnswer]
    depends on [isListening], and the effect's cleanup cancels playback and
    stops the recognizer again. *)
Theorem microphone_start_then_cleanup_stop (w w' : Sys) :
  recognition w = true ->
  isListening (st w) = false ->
  step ClickMicrophone w = Some w' ->
  isListening (st w') = true /\
  trace w' = trace w ++ [RecognitionStart; SynthCancel; RecognitionStop].
Proof.
  intros Hrec Hl Hstep. apply step_inv in Hstep.
  destruct Hstep as (En & _ & Hs & _ & Htr).
  simpl in En, Hs, Htr. unfold handleToggleListening in Hs, Htr.
  rewrite Hl, Hrec in Hs, Htr. cbn [fst snd] in Hs, Htr.
  split; [now rewrite Hs|].
  rewrite <- Hs in Htr. rewrite Htr.
  assert (Hm : mounted (st w') = true).
  { rewrite Hs. unfold footerHasSubmit, rendered in En. split_bools.
    assumption. }
  rewrite Hm. unfold afterRender.
  rewrite recognitionDepsChanged_cases
    by (left; rewrite Hs, Hl; simpl; discriminate).
  assert (Hsp : speechDepsChanged (st w) (st w') = false).
  { rewrite Hs. unfold speechDepsChanged, hasFeedback. simpl.
    now rewrite Nat.eqb_refl, Bool.eqb_reflx. }
  rewrite Hsp. reflexivity.
Qed.

Lemma microphone_start_then_cleanup_stop_witness :
  let w := mount true [sampleQuestion] in
  let w' := after [ClickMicrophone] w in
  isListening (st w') = true /\
  trace w' = trace w ++ [RecognitionStart; SynthCancel; RecognitionStop].
Proof.
  intros w w'.
  apply (@microphone_start_then_cleanup_stop w w'); reflexivity.
Defined.

(** X16: with a capture device, every recognition event that changes the
    displayed transcript, and every edit that changes the typed text, is
    followed by the cleanup of the recognition effect: playback (the
    question being read) is cancelled and the recognizer is stopped. *)
Theorem input_change_runs_cleanup (ev : Event) (w w' : Sys) :
  recognition w = true ->
  (exists rs, ev = RecognitionResult rs) \/ (exists v, ev = TypeText v) ->
  step ev w = Some w' ->
  transcript (st w') <> transcript (st w) \/
  textAnswer (st w') <> textAnswer (st w) ->
  exists handler_effects,
    trace w' = trace w ++ handler_effects ++ [SynthCancel; RecognitionStop] /\
    filter startsDevice handler_effects = [].
Proof.
  intros Hrec Hev Hstep Hchg. apply step_inv in Hstep.
  destruct Hstep as (En & _ & Hs & _ & Htr).
  exists (snd (fst (dispatch ev w))).
  rewrite <- Hs in Htr. rewrite Htr, Hrec.
  assert (Hsame : appState (st w') = appState (st w) /\
                  currentQuestionIndex (st w') = currentQuestionIndex (st w) /\
                  hasFeedback (st w') = hasFeedback (st w) /\
                  filter startsDevice (snd (fst (dispatch ev w))) = []).
  { rewrite Hs. destruct Hev as [[rs ->] | [v ->]]; simpl.
    - unfold onresult. destruct (collectChunks rs [] []) as [final interim].
      destruct (truthy final); repeat split; reflexivity.
    - unfold onChange. rewrite Hrec.
      destruct (isListening (st w)); repeat split; reflexivity. }
  destruct Hsame as (Ha & Hi & Hf & Hq).
  assert (Hm : mounted (st w') = true).
  { unfold mounted. rewrite Ha.
    destruct Hev as [[rs ->] | [v ->]]; simpl in En.
    - now apply andb_true_iff in En as [En _].
    - unfold textareaEnabled, rendered in En. split_bools. assumption. }
  rewrite Hm. unfold afterRender.
  rewrite recognitionDepsChanged_cases
    by (right; destruct Hchg as [H | H]; [left | right]; congruence).
  unfold speechDepsChanged. rewrite Hi, Hf, Nat.eqb_refl, Bool.eqb_reflx.
  split; [reflexivity | exact Hq].
Qed.

Lemma input_change_runs_cleanup_witness :
  let w := after [ClickMicrophone] (mount true [sampleQuestion]) in
  let w' := after [RecognitionResult [(js "I think", false)]] w in
  transcript (st w') = js "I think" /\
  exists handler_effects,
    trace w' = trace w ++ handler_effects ++ [SynthCancel; RecognitionStop] /\
    filter startsDevice handler_effects = [].
Proof.
  intros w w'.
  split; [reflexivity|].
  apply (@input_change_runs_cleanup
           (RecognitionResult [(js "I think", false)]) w w').
  - reflexivity.
  - left. eexists. reflexivity.
  - vm_compute. reflexivity.
  - left. vm_compute. discriminate.
Defined.

(** ** Starting an interview *)

(** X17: [handleStartInterview] enters the interview exactly when question
    generation produced a non-empty list.  Then the host holds that list,
    no results and no error, and the screen it mounts starts in the initial
    session state.  In every other case (an empty list, no value, or a
    thrown error) it returns to [SETUP] with an error message, and the
    questions and results it held are untouched. *)
Theorem start_needs_questions (g : App.Generation) (a : App.t) :
  let a' := App.handleStartInterview_settled g
              (App.handleStartInterview_begin a) in
  (App.appState a' = INTERVIEW <->
   exists q qs, g = App.Produced (Some (q :: qs))) /\
  (forall q qs, g = App.Produced (Some (q :: qs)) ->
     App.questions a' = q :: qs /\ App.results a' = [] /\
     App.error a' = None /\ screenState a' = initialState (q :: qs)) /\
  (App.appState a' <> INTERVIEW ->
     App.appState a' = SETUP /\ App.error a' <> None /\
     App.questions a' = App.questions a /\
     App.results a' = App.results a).
Proof.
  intros a'. subst a'. split; [|split].
  - split.
    + destruct g as [[[|q qs]|] | message |]; simpl; try discriminate.
      intros _. now exists q, qs.
    + intros (q & qs & ->). reflexivity.
  - intros q qs ->. simpl. repeat split.
  - destruct g as [[[|q qs]|] | message |]; simpl; intros H;
      try congruence; repeat split; discriminate.
Qed.

(** X18: the setup screen starts a generation only from [SETUP] and only
    for a job description that is not blank; the host is then in
    [GENERATING] with the error cleared, and until that generation settles
    no further start is accepted, whatever the job description. *)
Theorem one_generation_at_a_time (jd : jsstring) (a a1 : App.t) :
  App.handleStart jd a = Some a1 ->
  App.appState a = SETUP /\ blank jd = false /\
  App.appState a1 = GENERATING /\ App.error a1 = None /\
  forall jd', App.handleStart jd' a1 = None.
Proof.
  unfold App.handleStart. intros H.
  destruct (App.appState a) eqn:Ha; try discriminate.
  - rewrite truthy_trim in H. simpl in H. rewrite andb_true_r in H.
    destruct (blank jd); [discriminate|].
    injection H as <-. repeat split.
    intros jd'. simpl. now rewrite andb_false_r.
  - rewrite andb_false_r in H. discriminate.
Qed.

Lemma one_generation_at_a_time_witness :
  let a := App.resetInterview
             {| App.appState := COMPLETE; App.questions := [sampleQuestion];
                App.results := []; App.error := None;
                App.isReportModalOpen := true |} in
  let a1 := App.handleStartInterview_begin a in
  App.appState a1 = GENERATING /\
  App.handleStart (js "Senior backend engineer") a1 = None.
Proof.
  intros a a1.
  assert (H : App.handleStart (js "Senior backend engineer") a = Some a1)
    by reflexivity.
  destruct (@one_generation_at_a_time _ a a1 H) as (_ & _ & H3 & _ & H5).
  split; [exact H3 | exact (H5 _)].
Defined.

(** ** The feedback on screen *)

Lemma reviewInvariant_step (ev : Event) (w w' : Sys) :
  reviewInvariant (st w) -> step ev w = Some w' -> reviewInvariant (st w').
Proof.
  intros Inv Hstep. apply step_inv in Hstep.
  destruct Hstep as (En & _ & Hs & _). rewrite Hs. clear Hs w'.
  unfold reviewInvariant in *.
  destruct ev; simpl.
  - unfold handleSubmitAnswer.
    destruct (negb (truthy (resolvedAnswer None (st w))));
      [|destruct (currentQuestion (st w))]; simpl; exact Inv.
  - unfold handleToggleListening.
    destruct (isListening (st w)), (recognition w); simpl; exact Inv.
  - unfold handleNextQuestion.
    destruct (hasNextQuestion (st w)); simpl; discriminate.
  - unfold handleToggleSpokenFeedback.
    destruct (speechState (st w)); simpl; try exact Inv;
      destruct (feedback (st w)) as [f|] eqn:Hf; simpl;
      try (rewrite Hf; exact Inv);
      destruct (truthy (spokenFeedback f)); simpl; rewrite Hf; exact Inv.
  - unfold onChange.
    destruct (isListening (st w)), (recognition w); simpl; exact Inv.
  - unfold onresult. destruct (collectChunks rs [] []) as [final interim].
    destruct (truthy final); simpl; exact Inv.
  - exact Inv.
  - destruct u; simpl; exact Inv.
  - destruct (inflight w) as [|p rest]; simpl; [exact Inv|].
    intros f Hf. injection Hf as <-.
    do 2 eexists. split; reflexivity.
  - exact Inv.
Qed.

Lemma reviewInvariant_reachable (w : Sys) :
  reachable w -> reviewInvariant (st w).
Proof.
  induction 1 as [rec qs Hqs | ev w w' Hw IH Hstep].
  - intros f Hf. discriminate.
  - exact (@reviewInvariant_step ev w w' IH Hstep).
Qed.

(** X19: the feedback card never shows stale feedback: whenever feedback is
    on screen in a reachable session, it is the feedback of the latest
    recorded result, that result is for the question at the current index,
    and its answer is the one the card displays
    ([results[results.length - 1].answer]). *)
Theorem feedback_belongs_to_current_question (w : Sys) (f : AnswerFeedback) :
  reachable w ->
  feedback (st w) = Some f ->
  exists r,
    nth_error (results (st w)) (currentQuestionIndex (st w)) = Some r /\
    List.length (results (st w)) = S (currentQuestionIndex (st w)) /\
    res_feedback r = f /\
    currentQuestion (st w) = Some (res_question r).
Proof.
  intros Hw Hf.
  destruct (reviewInvariant_reachable Hw Hf) as (earlier & r & Hres & Hr).
  pose proof (turnInvariant_reachable Hw) as (_ & _ & _ & Hst).
  assert (Hlen : List.length (results (st w))
                 = S (currentQuestionIndex (st w))).
  { unfold hasFeedback in Hst. rewrite Hf in Hst.
    destruct (appState (st w)); try contradiction;
      destruct Hst as (_ & H & Hl); try discriminate; try exact Hl. }
  assert (Hnth : nth_error (results (st w)) (currentQuestionIndex (st w))
                 = Some r).
  { rewrite Hres in *. rewrite length_app in Hlen. simpl in Hlen.
    rewrite nth_error_app2 by lia.
    replace (currentQuestionIndex (st w) - List.length earlier) with 0 by lia.
    reflexivity. }
  exists r. split; [exact Hnth|]. split; [exact Hlen|]. split; [exact Hr|].
  destruct (answersInvariant_reachable Hw) as (Hmap & _).
  unfold currentQuestion.
  apply (map_nth_error res_question) in Hnth.
  rewrite Hmap, nth_error_firstn in Hnth.
  destruct (Nat.ltb_spec (currentQuestionIndex (st w))
              (List.length (results (st w)))); [exact Hnth | lia].
Qed.

Lemma feedback_belongs_to_current_question_witness :
  let w := after [TypeText (js "a"); ClickSubmit; Fulfilled sampleFeedback;
                  ClickNext; TypeText (js "b"); ClickSubmit;
                  Fulfilled sampleFeedback]
                 (mount true [sampleQuestion; sampleQuestion]) in
  exists r,
    nth_error (results (st w)) (currentQuestionIndex (st w)) = Some r /\
    List.length (results (st w)) = S (currentQuestionIndex (st w)) /\
    res_feedback r = sampleFeedback /\
    currentQuestion (st w) = Some (res_question r).
Proof.
  intros w.
  apply (@feedback_belongs_to_current_question w sampleFeedback).
  - apply reachable_after, reachable_mount. discriminate.
  - reflexivity.
Defined.
